(** * mock_server.py: the failure-simulating HTTP server used to test install.sh

    A shallow embedding of [bin/mock_server.py].  The request handler
    [MockHandler.do_GET] is written in a small state monad over the state the
    Python code touches: the module-level dictionary [request_counts], the
    instance attribute [self.path], what the handler does on the connection
    and the calls that reach the base class's [log_message].  The calls into
    Python's standard library ([send_error], [send_response], ..., the
    inherited [do_GET]) are kept as events; the inherited static file server
    is a parameter. *)

From Stdlib Require Import ZArith String Ascii List Lia.
From Stdlib Require Import Init.Byte.
From stdpp Require Import gmap strings list fin_maps.
Import ListNotations.

Local Open Scope string_scope.
Local Open Scope Z_scope.

(** ** Python [str] operations used by the handler

    [self.path] is decoded from the request line as iso-8859-1, one character
    per byte, so Rocq's [string] is the same data. *)

(** [s.startswith(p)] *)
Fixpoint startswith (p s : string) : bool :=
  match p, s with
  | EmptyString, _ => true
  | String _ _, EmptyString => false
  | String a p', String b s' => if Ascii.eqb a b then startswith p' s' else false
  end.

(** [sub in s]: [sub] occurs in [s] as a contiguous substring. *)
Fixpoint str_in (sub s : string) : bool :=
  startswith sub s ||
  match s with
  | EmptyString => false
  | String _ s' => str_in sub s'
  end.

(** [s.replace(old, new)] for a non-empty [old]: scan left to right, replace
    every non-overlapping occurrence.  [skip] counts the characters of the
    occurrence just matched that are still to be dropped. *)
Fixpoint replace_from (old new : string) (skip : nat) (s : string) : string :=
  match s with
  | EmptyString => EmptyString
  | String c s' =>
      match skip with
      | S k => replace_from old new k s'
      | O =>
          if startswith old s
          then new ++ replace_from old new (Nat.pred (String.length old)) s'
          else String c (replace_from old new 0 s')
      end
  end.

(** [s.replace("", new)]: [new] before every character and at the end. *)
Fixpoint intersperse (new s : string) : string :=
  match s with
  | EmptyString => new
  | String c s' => new ++ String c (intersperse new s')
  end.

Definition str_replace (old new s : string) : string :=
  match old with
  | EmptyString => intersperse new s
  | String _ _ => replace_from old new 0 s
  end.

(** [s or d] on strings: the empty string is falsy. *)
Definition str_or (s d : string) : string :=
  match s with
  | EmptyString => d
  | String _ _ => s
  end.

(** The one-character string holding a double quote (code 34). *)
Definition dquote : string := String (ascii_of_nat 34) EmptyString.

(** ** Python [bytes] *)

Abbreviation bytes := (list byte).

(** A bytes literal of ASCII text, [b"..."]. *)
Definition bytes_lit (s : string) : bytes := list_byte_of_string s.

Fixpoint bytes_repeat (data : bytes) (n : nat) : bytes :=
  match n with
  | O => []
  | S k => data ++ bytes_repeat data k
  end.

(** [data * n]; empty when [n <= 0]. *)
Definition bytes_mul (data : bytes) (n : Z) : bytes :=
  bytes_repeat data (Z.to_nat n).

Arguments bytes_mul : simpl never.

(** ** Events and state *)

Inductive LogArg :=
| ArgStr (s : string)
| ArgInt (n : Z).

(** One call [log_message(format, *args)]. *)
Record LogCall := mkLogCall { log_format : string; log_args : list LogArg }.

(** What a handler does on its connection, in program order. *)
Inductive Event :=
| EvSleep (seconds : Z)                      (* time.sleep(seconds) *)
| EvSendError (code : Z) (message : string)  (* self.send_error(code, message) *)
| EvSendResponse (code : Z)                  (* self.send_response(code) *)
| EvSendHeader (keyword value : string)      (* self.send_header(keyword, value) *)
| EvEndHeaders                               (* self.end_headers() *)
| EvWrite (data : bytes)                     (* self.wfile.write(data) *)
| EvSuper (method path : string).            (* an inherited do_* method, run with self.path = path *)

(** What the inherited static file server does for one request: its reply
    and the [log_message] calls it makes. *)
Record SuperReply := mkSuperReply {
  sr_status : Z;
  sr_content_type : option string;
  sr_body : bytes;
  sr_log : list LogCall
}.

Record State := mkState {
  request_counts : gmap string Z;  (* module level: request_counts *)
  self_command : string;           (* self.command *)
  self_path : string;              (* self.path *)
  self_requestline : string;       (* self.requestline *)
  wfile : list Event;              (* done on the connection so far *)
  stderr : list LogCall            (* calls that reached the base log_message *)
}.

Definition M (A : Type) : Type := State -> A * State.

Definition ret {A} (a : A) : M A := fun st => (a, st).

Definition bind {A B} (m : M A) (k : A -> M B) : M B :=
  fun st => let '(a, st') := m st in k a st'.

Notation "x <- m ;; k" := (bind m (fun x => k))
  (at level 100, m at next level, right associativity).
Notation "m ;; k" := (bind m (fun _ => k))
  (at level 100, right associativity).

Definition get_path : M string := fun st => (self_path st, st).

Definition set_path (p : string) : M unit := fun st =>
  (tt, mkState (request_counts st) (self_command st) p (self_requestline st)
         (wfile st) (stderr st)).

Definition emit (e : Event) : M unit := fun st =>
  (tt, mkState (request_counts st) (self_command st) (self_path st)
         (self_requestline st) (wfile st ++ [e]) (stderr st)).

Definition write_log (c : LogCall) : M unit := fun st =>
  (tt, mkState (request_counts st) (self_command st) (self_path st)
         (self_requestline st) (wfile st) (stderr st ++ [c])).

(** [with request_lock: count = request_counts.get(path, 0) + 1;
    request_counts[path] = count].  Requests are handled one after the other
    (see [serve_forever]), so the lock never waits. *)
Definition bump (path : string) : M Z := fun st =>
  let count := default 0 (request_counts st !! path) + 1 in
  (count, mkState (<[path := count]> (request_counts st)) (self_command st)
            (self_path st) (self_requestline st) (wfile st) (stderr st)).

(** The call [log_request(code)] makes: [log_message('"%s" %s %s',
    self.requestline, str(code), '-')]. *)
Definition request_log (rl : string) (code : Z) : LogCall :=
  mkLogCall (dquote ++ "%s" ++ dquote ++ " %s %s")
    [ArgStr rl; ArgInt code; ArgStr "-"].

(** The call [log_error] makes inside [send_error(code, message)]. *)
Definition error_log (code : Z) (message : string) : LogCall :=
  mkLogCall "code %d, message %s" [ArgInt code; ArgStr message].

Fixpoint for_each {A} (f : A -> M unit) (l : list A) : M unit :=
  match l with
  | [] => ret tt
  | x :: l' => f x ;; for_each f l'
  end.

Section Handler.

(** [os.environ] *)
Variable environ : gmap string string.

(** The methods [MockHandler] inherits: the reply of the base class's method
    of the given name (for a [do_*] name the base class lacks, the 501 reply
    of [handle_one_request]) as a function of the method name and
    [self.path].  [inherited "do_GET"] is [SimpleHTTPRequestHandler.do_GET]
    serving [FIXTURES_DIR]. *)
Variable inherited : string -> string -> SuperReply.

(** Truthiness of [os.environ.get("DEBUG")]: [None] and the empty string are
    falsy. *)
Definition debug_enabled : bool :=
  match environ !! "DEBUG" with
  | None => false
  | Some EmptyString => false
  | Some (String _ _) => true
  end.

(** [MockHandler.log_message] *)
Definition log_message (format : string) (args : list LogArg) : M unit :=
  if debug_enabled then write_log (mkLogCall format args) else ret tt.

(** The calls [log_message] lets through to the base class. *)
Definition logged (calls : list LogCall) : list LogCall :=
  if debug_enabled then calls else [].

(** [BaseHTTPRequestHandler.log_request(code)] *)
Definition log_request (code : Z) : M unit := fun st =>
  let c := request_log (self_requestline st) code in
  log_message (log_format c) (log_args c) st.

(** [BaseHTTPRequestHandler.send_response(code)] logs the request, then
    writes the status line and the Server and Date headers. *)
Definition send_response (code : Z) : M unit :=
  log_request code ;; emit (EvSendResponse code).

(** [BaseHTTPRequestHandler.send_error(code, message)] logs the error, then
    sends the response and the standard error page. *)
Definition send_error (code : Z) (message : string) : M unit :=
  log_message (log_format (error_log code message))
              (log_args (error_log code message)) ;;
  log_request code ;;
  emit (EvSendError code message).

Definition send_header (keyword value : string) : M unit :=
  emit (EvSendHeader keyword value).

Definition end_headers : M unit := emit EvEndHeaders.

Definition wfile_write (data : bytes) : M unit := emit (EvWrite data).

Definition sleep (seconds : Z) : M unit := emit (EvSleep seconds).

(** An inherited method runs on the current [self.path]; its logging goes
    through [MockHandler.log_message]. *)
Definition call_inherited (method : string) : M unit :=
  path <- get_path ;;
  for_each (fun c => log_message (log_format c) (log_args c))
           (sr_log (inherited method path)) ;;
  emit (EvSuper method path).

(** The [/fail-then-ok] block of [do_GET]; [false] stands for its [return],
    [true] for falling out of the block. *)
Definition fail_then_ok (path : string) : M bool :=
  if str_in "/fail-then-ok" path then
    count <- bump path ;;
    if count <? 3 then
      send_error 503 "Service Temporarily Unavailable" ;; ret false
    else
      set_path (str_or (str_replace "/fail-then-ok" "" path) "/") ;; ret true
  else ret true.

(** The checks of [do_GET] below the [/fail-then-ok] block; they test the
    local variable [path], not [self.path]. *)
Definition after_retry (path : string) : M unit :=
  if str_in "/wrong-checksum" path then
    send_response 200 ;;
    send_header "Content-Type" "application/octet-stream" ;;
    end_headers ;;
    wfile_write (bytes_mul (bytes_lit "wrong content ") 100000)
  else if str_in "/corrupted.zip" path then
    send_response 200 ;;
    send_header "Content-Type" "application/zip" ;;
    end_headers ;;
    wfile_write ([x50; x4b; x03; x04] ++ bytes_mul [x00] 100)
  else if str_in "/small-file" path then
    send_response 200 ;;
    send_header "Content-Type" "application/octet-stream" ;;
    end_headers ;;
    wfile_write (bytes_lit "too small")
  else call_inherited "do_GET".

(** [MockHandler.do_GET] *)
Definition do_GET : M unit :=
  path <- get_path ;;
  if str_in "/404" path then send_error 404 "Not Found"
  else if str_in "/500" path then send_error 500 "Internal Server Error"
  else if str_in "/slow" path then
    sleep 120 ;; send_response 200 ;; end_headers
  else
    go_on <- fail_then_ok path ;;
    if go_on then after_retry path else ret tt.

(** The [do_*] methods [MockHandler] defines itself: [do_GET] alone. *)
Definition MockHandler_method (name : string) : option (M unit) :=
  if String.eqb name "do_GET" then Some do_GET else None.

(** [BaseHTTPRequestHandler.handle_one_request] after parsing: look up
    ['do_' + self.command] on the handler, the class's own methods first. *)
Definition handle_one_request : M unit := fun st =>
  let mname := "do_" ++ self_command st in
  match MockHandler_method mname with
  | Some method => method st
  | None => call_inherited mname st
  end.

(** ** The server shell *)

Record Request := mkRequest {
  rq_command : string;
  rq_path : string;
  rq_version : string
}.

Definition requestline (r : Request) : string :=
  rq_command r ++ " " ++ rq_path r ++ " " ++ rq_version r.

(** A handler instance is created per connection; [request_counts] and the
    log outlive it. *)
Definition handle (r : Request) (counts : gmap string Z) (log : list LogCall)
  : State :=
  snd (handle_one_request
         (mkState counts (rq_command r) (rq_path r) (requestline r) [] log)).

(** A connection: when the client connects, and the request it sends. *)
Record Connection := mkConnection { arrival : Z; request : Request }.

Record Served := mkServed { started : Z; finished : Z; final : State }.

(** Seconds a handler spends in [time.sleep]; the rest takes no time. *)
Fixpoint duration (evs : list Event) : Z :=
  match evs with
  | [] => 0
  | EvSleep s :: evs' => s + duration evs'
  | _ :: evs' => duration evs'
  end.

(** [ReusableTCPServer.serve_forever]: the class derives from
    [socketserver.TCPServer] with no threading or forking mix-in, so
    [process_request] runs the handler to its end before the loop accepts the
    next connection.  [conns] are the connections in the order they are
    accepted, [now] the time the loop is free. *)
Fixpoint serve_forever (conns : list Connection) (now : Z)
    (counts : gmap string Z) (log : list LogCall) : list Served :=
  match conns with
  | [] => []
  | c :: rest =>
      let start := Z.max now (arrival c) in
      let st := handle (request c) counts log in
      let finish := start + duration (wfile st) in
      mkServed start finish st
        :: serve_forever rest finish (request_counts st) (stderr st)
  end.

(** ** What a client sees *)

Definition event_status (e : Event) : option Z :=
  match e with
  | EvSendError code _ => Some code
  | EvSendResponse code => Some code
  | EvSuper method path => Some (sr_status (inherited method path))
  | _ => None
  end.

(** The status of the response: that of the first event that sends one. *)
Fixpoint status_of (evs : list Event) : option Z :=
  match evs with
  | [] => None
  | e :: evs' =>
      match event_status e with
      | Some code => Some code
      | None => status_of evs'
      end
  end.

Definition statuses (l : list Served) : list (option Z) :=
  map (fun s => status_of (wfile (final s))) l.

(** [request_counts] once the connections [l] are served, [counts] being
    its value before. *)
Definition counts_after (counts : gmap string Z) (l : list Served)
  : gmap string Z :=
  fold_left (fun _ s => request_counts (final s)) l counts.

End Handler.

(** The Content-Type the handler sends with [send_header]. *)
Fixpoint content_type_of (evs : list Event) : option string :=
  match evs with
  | [] => None
  | EvSendHeader k v :: evs' =>
      if String.eqb k "Content-Type" then Some v else content_type_of evs'
  | _ :: evs' => content_type_of evs'
  end.

(** The body the handler writes with [self.wfile.write]. *)
Fixpoint body_of (evs : list Event) : bytes :=
  match evs with
  | [] => []
  | EvWrite data :: evs' => data ++ body_of evs'
  | _ :: evs' => body_of evs'
  end.

(** The request [GET path HTTP/1.1]. *)
Definition GET (path : string) : Request := mkRequest "GET" path "HTTP/1.1".

(** One connection at each of the times [ts], each sending a GET of [path]. *)
Definition gets (path : string) (ts : list Z) : list Connection :=
  map (fun t => mkConnection t (GET path)) ts.

(** ** Startup: the fixture directory *)

(** A file system, as far as [main] looks at it: what is at a path. *)
Inductive Node :=
| File (data : bytes)
| Dir.

Fixpoint endswith_slash (s : string) : bool :=
  match s with
  | EmptyString => false
  | String c EmptyString => Ascii.eqb c "/"
  | String _ s' => endswith_slash s'
  end.

(** [os.path.join(a, b)] (posixpath) for a relative [b]. *)
Definition os_path_join (a b : string) : string :=
  match a with
  | EmptyString => b
  | String _ _ => if endswith_slash a then a ++ b else a ++ "/" ++ b
  end.

(** [os.path.exists(path)] *)
Definition os_path_exists (path : string) (fs : gmap string Node) : bool :=
  match fs !! path with
  | Some _ => true
  | None => false
  end.

(** [with open(path, "wb") as f: f.write(data)] *)
Definition write_binary (path : string) (data : bytes) (fs : gmap string Node)
  : gmap string Node :=
  <[path := File data]> fs.

Section Startup.

(** [os.makedirs(path, exist_ok=True)], a function of Python's library: the
    file system it leaves, or [None] when it raises. *)
Variable os_makedirs :
  string -> gmap string Node -> option (gmap string Node).

(** The part of [main] before the server is started; [None] when
    [os.makedirs] raises. *)
Definition main_setup (FIXTURES_DIR : string) (fs : gmap string Node)
  : option (gmap string Node) :=
  match os_makedirs FIXTURES_DIR fs with
  | None => None
  | Some fs1 =>
      let mock_binary := os_path_join FIXTURES_DIR "mock_binary" in
      if negb (os_path_exists mock_binary fs1)
      then Some (write_binary mock_binary (bytes_mul [x00] (2 * 1024 * 1024)) fs1)
      else Some fs1
  end.

End Startup.

(** The non-empty prefixes of [path] that a slash follows, shortest first:
    the directories above [path]. *)
Fixpoint prefixes_at_slash (path : string) : list string :=
  match path with
  | EmptyString => []
  | String c rest =>
      (if startswith "/" rest then [String c EmptyString] else [])
      ++ map (String c) (prefixes_at_slash rest)
  end.

(** Modelled from the spec: [os.makedirs] is Python's, not this program's.
    Section 4.3 of the specification has startup "ensure the fixture root
    directory exists (create recursively if missing)", and section 7 makes
    a file-system error during that setup fatal.  The stand-in goes through
    the directories above [path] and then [path] itself: one that is
    missing is created, one that is a regular file raises, and so does the
    empty path. *)
Definition makedirs_model (path : string) (fs : gmap string Node)
  : option (gmap string Node) :=
  match path with
  | EmptyString => None
  | String _ _ =>
      fold_left
        (fun acc dir =>
           match acc with
           | None => None
           | Some fs' =>
               match fs' !! dir with
               | Some (File _) => None
               | Some Dir => Some fs'
               | None => Some (<[dir := Dir]> fs')
               end
           end)
        (prefixes_at_slash path ++ [path]) (Some fs)
  end.

(** ** A fixture store to run the handler on *)

(** Modelled from the spec: the static file server [MockHandler] inherits
    from Python's [http.server] is not part of this program.  Section 8 of
    the specification says of it that a path pointing at an existing fixture
    file returns that file's exact bytes with status 200 and a path pointing
    at no file returns the not-found status; section 6 leaves methods other
    than GET to its default behaviour (501).  [files] maps a request path to
    the content of the fixture it points at. *)
Definition fixture_server (files : gmap string bytes) (method path : string)
  : SuperReply :=
  if String.eqb method "do_GET" then
    match files !! path with
    | Some data =>
        mkSuperReply 200 (Some "application/octet-stream") data
          [mkLogCall "GET %s %s" [ArgStr path; ArgInt 200]]
    | None =>
        mkSuperReply 404 (Some "text/html;charset=utf-8") []
          [mkLogCall "code %d, message %s" [ArgInt 404; ArgStr "File not found"]]
    end
  else
    mkSuperReply 501 (Some "text/html;charset=utf-8") []
      [mkLogCall "code %d, message %s" [ArgInt 501; ArgStr "Unsupported method"]].

(** The fixture directory right after startup: [mock_binary] alone (two of
    its zero bytes stand for all of them here). *)
Definition startup_fixtures : gmap string bytes :=
  {[ "/mock_binary" := [x00; x00] ]}.

(** ** Module level: where the fixtures are *)

(** [p[:p.rfind("/") + 1]]: [p] up to and with its last slash. *)
Fixpoint upto_last_slash (p : string) : string :=
  match p with
  | EmptyString => EmptyString
  | String c p' =>
      if str_in "/" p' then String c (upto_last_slash p')
      else if Ascii.eqb c "/" then String c EmptyString
      else EmptyString
  end.

(** [s == "/" * len(s)] *)
Fixpoint all_slashes (s : string) : bool :=
  match s with
  | EmptyString => true
  | String c s' => Ascii.eqb c "/" && all_slashes s'
  end.

(** [s.rstrip("/")] *)
Fixpoint rstrip_slash (s : string) : string :=
  match s with
  | EmptyString => EmptyString
  | String c s' =>
      if all_slashes s then EmptyString else String c (rstrip_slash s')
  end.

(** [os.path.dirname(p)] (posixpath) *)
Definition os_path_dirname (p : string) : string :=
  let head := upto_last_slash p in
  match head with
  | EmptyString => head
  | String _ _ => if all_slashes head then head else rstrip_slash head
  end.

(** [FIXTURES_DIR = sys.argv[2] if len(sys.argv) > 2 else
    os.path.join(os.path.dirname(__file__), "test_fixtures")]; [file] is
    [__file__]. *)
Definition FIXTURES_DIR (argv : list string) (file : string) : string :=
  match argv with
  | _ :: _ :: dir :: _ => dir
  | _ => os_path_join (os_path_dirname file) "test_fixtures"
  end.

(** ** Words for the properties *)

(** The request gets to the retry block of [do_GET]: a GET whose path
    contains "/fail-then-ok" and none of the substrings tested before it. *)
Definition reaches_retry (r : Request) : bool :=
  String.eqb (rq_command r) "GET" &&
  negb (str_in "/404" (rq_path r)) &&
  negb (str_in "/500" (rq_path r)) &&
  negb (str_in "/slow" (rq_path r)) &&
  str_in "/fail-then-ok" (rq_path r).

(** How many of the connections get to the retry block with the path [P]. *)
Fixpoint retry_requests (P : string) (conns : list Connection) : Z :=
  match conns with
  | [] => 0
  | c :: rest =>
      (if reaches_retry (request c) && String.eqb (rq_path (request c)) P
       then 1 else 0) + retry_requests P rest
  end.

(** The request is answered by the "/slow" check. *)
Definition is_slow (r : Request) : bool :=
  String.eqb (rq_command r) "GET" &&
  negb (str_in "/404" (rq_path r)) &&
  negb (str_in "/500" (rq_path r)) &&
  str_in "/slow" (rq_path r).

(** The event sends a response. *)
Definition sends_status (e : Event) : bool :=
  match e with
  | EvSendError _ _ | EvSendResponse _ | EvSuper _ _ => true
  | _ => false
  end.

(** How many of the connections are answered by the "/slow" check. *)
Fixpoint slow_requests (conns : list Connection) : Z :=
  match conns with
  | [] => 0
  | c :: rest => (if is_slow (request c) then 1 else 0) + slow_requests rest
  end.

(** *** The scenario table of the specification

    Section 4.1 of the specification, in its words: an ordered sequence of
    substring checks against the path, the first match wins.  These
    definitions follow the specification, to be compared with [do_GET]. *)

Inductive Scenario :=
| Row404
| Row500
| RowSlow
| RowRetry
| RowWrongChecksum
| RowCorruptedZip
| RowSmallFile.

Definition spec_table : list (string * Scenario) :=
  [("/404", Row404); ("/500", Row500); ("/slow", RowSlow);
   ("/fail-then-ok", RowRetry); ("/wrong-checksum", RowWrongChecksum);
   ("/corrupted.zip", RowCorruptedZip); ("/small-file", RowSmallFile)].

(** The first row of the table whose substring the path contains. *)
Fixpoint spec_first_match (table : list (string * Scenario)) (path : string)
  : option Scenario :=
  match table with
  | [] => None
  | (sub, row) :: table' =>
      if str_in sub path then Some row else spec_first_match table' path
  end.

(** The behaviour of a row, as the events of the connection; for the retry
    row, that of the first two requests; with no row, static file serving
    of the path. *)
Definition spec_events (row : option Scenario) (path : string) : list Event :=
  match row with
  | Some Row404 => [EvSendError 404 "Not Found"]
  | Some Row500 => [EvSendError 500 "Internal Server Error"]
  | Some RowSlow => [EvSleep 120; EvSendResponse 200; EvEndHeaders]
  | Some RowRetry => [EvSendError 503 "Service Temporarily Unavailable"]
  | Some RowWrongChecksum =>
      [EvSendResponse 200;
       EvSendHeader "Content-Type" "application/octet-stream";
       EvEndHeaders;
       EvWrite (bytes_mul (bytes_lit "wrong content ") 100000)]
  | Some RowCorruptedZip =>
      [EvSendResponse 200;
       EvSendHeader "Content-Type" "application/zip";
       EvEndHeaders;
       EvWrite ([x50; x4b; x03; x04] ++ bytes_mul [x00] 100)]
  | Some RowSmallFile =>
      [EvSendResponse 200;
       EvSendHeader "Content-Type" "application/octet-stream";
       EvEndHeaders;
       EvWrite (bytes_lit "too small")]
  | None => [EvSuper "do_GET" path]
  end.

(** The log once the connections [l] are served, [log] being its value
    before. *)
Definition log_after (log : list LogCall) (l : list Served) : list LogCall :=
  fold_left (fun _ s => stderr (final s)) l log.

(** * Properties *)

(** ** Strings and bytes *)

Lemma string_app_cons a (s t : string) : String a s ++ t = String a (s ++ t).
Proof. reflexivity. Qed.

Lemma startswith_spec p s :
  startswith p s = true <-> exists post, s = p ++ post.
Proof.
  revert s. induction p as [|a p IH]; intros s.
  - split; [intros _; now exists s|reflexivity].
  - destruct s as [|c s]; cbn [startswith].
    + split; [discriminate|]. intros (post & E).
      rewrite string_app_cons in E. discriminate E.
    + destruct (Ascii.eqb_spec a c) as [->|Hne].
      * rewrite IH. split; intros (post & E); exists post.
        -- rewrite string_app_cons. now rewrite E.
        -- rewrite string_app_cons in E. now injection E.
      * split; [discriminate|]. intros (post & E).
        rewrite string_app_cons in E. congruence.
Qed.

(** [str_in] is substring containment. *)
Lemma str_in_spec sub s :
  str_in sub s = true <-> exists pre post, s = pre ++ sub ++ post.
Proof.
  induction s as [|c s IH]; cbn [str_in].
  - rewrite orb_false_r, startswith_spec. split.
    + intros (post & E). now exists "", post.
    + intros ([|a pre] & post & E); [now exists post|].
      rewrite string_app_cons in E. discriminate E.
  - rewrite orb_true_iff, startswith_spec, IH. split.
    + intros [(post & E)|(pre & post & E)].
      * now exists "", post.
      * exists (String c pre), post. rewrite string_app_cons. now rewrite E.
    + intros ([|a pre] & post & E).
      * left. now exists post.
      * right. rewrite string_app_cons in E. injection E as _ E.
        now exists pre, post.
Qed.

Example str_in_examples :
  str_in "/404" "/v1/404/file" = true /\
  str_in "/404" "/v1/40/4" = false /\
  str_in "" "" = true /\
  str_replace "aa" "b" "aaa" = "ba" /\
  str_replace "" "-" "abc" = "-a-b-c-" /\
  os_path_join "test_fixtures" "mock_binary" = "test_fixtures/mock_binary" /\
  os_path_join "fixtures/" "mock_binary" = "fixtures/mock_binary".
Proof. repeat split; reflexivity. Qed.

Lemma bytes_repeat_length data n :
  length (bytes_repeat data n) = (n * length data)%nat.
Proof.
  induction n as [|n IH]; simpl; [reflexivity|].
  rewrite length_app, IH. lia.
Qed.

Lemma bytes_mul_length data n :
  0 <= n -> Z.of_nat (length (bytes_mul data n)) = n * Z.of_nat (length data).
Proof.
  intros Hn. unfold bytes_mul. rewrite bytes_repeat_length. lia.
Qed.

Lemma bytes_repeat_Forall (P : byte -> Prop) data n :
  Forall P data -> Forall P (bytes_repeat data n).
Proof.
  intros H. induction n as [|n IH]; simpl; [constructor|].
  apply Forall_app; split; assumption.
Qed.

(** Reduce the projections of a state that is written out. *)
Ltac fields :=
  cbn [fst snd request_counts self_command self_path self_requestline
       wfile stderr app].

(** ** Running the handler *)

Section HandlerFacts.

Variable environ : gmap string string.
Variable inherited : string -> string -> SuperReply.

Lemma log_message_run format args st :
  log_message environ format args st =
  (tt, mkState (request_counts st) (self_command st) (self_path st)
         (self_requestline st) (wfile st)
         (stderr st ++ logged environ [mkLogCall format args])).
Proof.
  unfold log_message, logged, write_log, ret.
  destruct (debug_enabled environ).
  - reflexivity.
  - rewrite app_nil_r. destruct st; reflexivity.
Qed.

Lemma logged_app l1 l2 :
  logged environ (l1 ++ l2) = (logged environ l1 ++ logged environ l2)%list.
Proof. unfold logged. destruct (debug_enabled environ); reflexivity. Qed.

Lemma send_error_run code message st :
  send_error environ code message st =
  (tt, mkState (request_counts st) (self_command st) (self_path st)
         (self_requestline st) (wfile st ++ [EvSendError code message])
         (stderr st ++ logged environ [error_log code message;
                                       request_log (self_requestline st) code])).
Proof.
  unfold send_error, log_request, bind, emit.
  rewrite !log_message_run. simpl.
  rewrite <- app_assoc, <- logged_app. reflexivity.
Qed.

Lemma send_response_run code st :
  send_response environ code st =
  (tt, mkState (request_counts st) (self_command st) (self_path st)
         (self_requestline st) (wfile st ++ [EvSendResponse code])
         (stderr st ++ logged environ [request_log (self_requestline st) code])).
Proof.
  unfold send_response, log_request, bind, emit.
  rewrite log_message_run. reflexivity.
Qed.

Lemma for_each_log_run calls st :
  for_each (fun c => log_message environ (log_format c) (log_args c)) calls st =
  (tt, mkState (request_counts st) (self_command st) (self_path st)
         (self_requestline st) (wfile st) (stderr st ++ logged environ calls)).
Proof.
  revert st.
  induction calls as [|c calls IH]; intros st; simpl.
  - unfold ret, logged.
    destruct (debug_enabled environ); rewrite app_nil_r; destruct st; reflexivity.
  - unfold bind. rewrite log_message_run, IH. simpl.
    rewrite <- app_assoc, <- logged_app. destruct c; reflexivity.
Qed.

Lemma call_inherited_run method st :
  call_inherited environ inherited method st =
  (tt, mkState (request_counts st) (self_command st) (self_path st)
         (self_requestline st) (wfile st ++ [EvSuper method (self_path st)])
         (stderr st ++ logged environ (sr_log (inherited method (self_path st))))).
Proof.
  unfold call_inherited, bind, get_path, emit.
  rewrite for_each_log_run. reflexivity.
Qed.

(** The cases of [do_GET], one per branch. *)

Lemma do_GET_404 st :
  str_in "/404" (self_path st) = true ->
  do_GET environ inherited st = send_error environ 404 "Not Found" st.
Proof. intros H. unfold do_GET, bind, get_path. now rewrite H. Qed.

Lemma do_GET_500 st :
  str_in "/404" (self_path st) = false ->
  str_in "/500" (self_path st) = true ->
  do_GET environ inherited st =
  send_error environ 500 "Internal Server Error" st.
Proof. intros H1 H2. unfold do_GET, bind, get_path. now rewrite H1, H2. Qed.

Lemma do_GET_slow st :
  str_in "/404" (self_path st) = false ->
  str_in "/500" (self_path st) = false ->
  str_in "/slow" (self_path st) = true ->
  do_GET environ inherited st =
  (tt, mkState (request_counts st) (self_command st) (self_path st)
         (self_requestline st)
         (wfile st ++ [EvSleep 120; EvSendResponse 200; EvEndHeaders])
         (stderr st ++ logged environ [request_log (self_requestline st) 200])).
Proof.
  intros H1 H2 H3. unfold do_GET, bind, get_path. rewrite H1, H2, H3.
  unfold sleep, end_headers, emit. rewrite send_response_run. simpl.
  now rewrite <- !app_assoc.
Qed.

(** Past the first three checks, [do_GET] is the retry block followed, unless
    the block returned, by the remaining checks on the unchanged [path]. *)
Lemma do_GET_past_slow st :
  str_in "/404" (self_path st) = false ->
  str_in "/500" (self_path st) = false ->
  str_in "/slow" (self_path st) = false ->
  do_GET environ inherited st =
  let '(go_on, st') := fail_then_ok environ (self_path st) st in
  if go_on then after_retry environ inherited (self_path st) st' else (tt, st').
Proof.
  intros H1 H2 H3. unfold do_GET, bind, get_path. rewrite H1, H2, H3.
  destruct (fail_then_ok environ (self_path st) st) as [[] st']; reflexivity.
Qed.

Lemma fail_then_ok_skip path st :
  str_in "/fail-then-ok" path = false ->
  fail_then_ok environ path st = (true, st).
Proof. intros H. unfold fail_then_ok. now rewrite H. Qed.

Lemma fail_then_ok_fail path st :
  str_in "/fail-then-ok" path = true ->
  default 0 (request_counts st !! path) + 1 < 3 ->
  fail_then_ok environ path st =
  (false,
   mkState (<[path := default 0 (request_counts st !! path) + 1]> (request_counts st))
     (self_command st) (self_path st) (self_requestline st)
     (wfile st ++ [EvSendError 503 "Service Temporarily Unavailable"])
     (stderr st ++ logged environ
        [error_log 503 "Service Temporarily Unavailable";
         request_log (self_requestline st) 503])).
Proof.
  intros H Hc. unfold fail_then_ok. rewrite H.
  unfold bind, bump.
  destruct (Z.ltb_spec (default 0 (request_counts st !! path) + 1) 3); [|lia].
  rewrite send_error_run. reflexivity.
Qed.

Lemma fail_then_ok_pass path st :
  str_in "/fail-then-ok" path = true ->
  3 <= default 0 (request_counts st !! path) + 1 ->
  fail_then_ok environ path st =
  (true,
   mkState (<[path := default 0 (request_counts st !! path) + 1]> (request_counts st))
     (self_command st) (str_or (str_replace "/fail-then-ok" "" path) "/")
     (self_requestline st) (wfile st) (stderr st)).
Proof.
  intros H Hc. unfold fail_then_ok. rewrite H.
  unfold bind, bump.
  destruct (Z.ltb_spec (default 0 (request_counts st !! path) + 1) 3); [lia|].
  reflexivity.
Qed.

Lemma after_retry_wrong_checksum path st :
  str_in "/wrong-checksum" path = true ->
  after_retry environ inherited path st =
  (tt, mkState (request_counts st) (self_command st) (self_path st)
         (self_requestline st)
         (wfile st ++ [EvSendResponse 200;
                       EvSendHeader "Content-Type" "application/octet-stream";
                       EvEndHeaders;
                       EvWrite (bytes_mul (bytes_lit "wrong content ") 100000)])
         (stderr st ++ logged environ [request_log (self_requestline st) 200])).
Proof.
  intros H. unfold after_retry. rewrite H.
  unfold bind, send_header, end_headers, wfile_write, emit.
  rewrite send_response_run. cbn [wfile stderr request_counts self_command
    self_path self_requestline]. now rewrite <- !app_assoc.
Qed.

Lemma after_retry_corrupted_zip path st :
  str_in "/wrong-checksum" path = false ->
  str_in "/corrupted.zip" path = true ->
  after_retry environ inherited path st =
  (tt, mkState (request_counts st) (self_command st) (self_path st)
         (self_requestline st)
         (wfile st ++ [EvSendResponse 200;
                       EvSendHeader "Content-Type" "application/zip";
                       EvEndHeaders;
                       EvWrite ([x50; x4b; x03; x04] ++ bytes_mul [x00] 100)])
         (stderr st ++ logged environ [request_log (self_requestline st) 200])).
Proof.
  intros H1 H2. unfold after_retry. rewrite H1, H2.
  unfold bind, send_header, end_headers, wfile_write, emit.
  rewrite send_response_run. cbn [wfile stderr request_counts self_command
    self_path self_requestline]. now rewrite <- !app_assoc.
Qed.

Lemma after_retry_small_file path st :
  str_in "/wrong-checksum" path = false ->
  str_in "/corrupted.zip" path = false ->
  str_in "/small-file" path = true ->
  after_retry environ inherited path st =
  (tt, mkState (request_counts st) (self_command st) (self_path st)
         (self_requestline st)
         (wfile st ++ [EvSendResponse 200;
                       EvSendHeader "Content-Type" "application/octet-stream";
                       EvEndHeaders;
                       EvWrite (bytes_lit "too small")])
         (stderr st ++ logged environ [request_log (self_requestline st) 200])).
Proof.
  intros H1 H2 H3. unfold after_retry. rewrite H1, H2, H3.
  unfold bind, send_header, end_headers, wfile_write, emit.
  rewrite send_response_run. cbn [wfile stderr request_counts self_command
    self_path self_requestline]. now rewrite <- !app_assoc.
Qed.

Lemma after_retry_static path st :
  str_in "/wrong-checksum" path = false ->
  str_in "/corrupted.zip" path = false ->
  str_in "/small-file" path = false ->
  after_retry environ inherited path st =
  call_inherited environ inherited "do_GET" st.
Proof. intros H1 H2 H3. unfold after_retry. now rewrite H1, H2, H3. Qed.

Lemma handle_GET r counts log :
  rq_command r = "GET" ->
  handle environ inherited r counts log =
  snd (do_GET environ inherited
         (mkState counts "GET" (rq_path r) (requestline r) [] log)).
Proof.
  intros H. unfold handle, handle_one_request.
  cbn [self_command]. rewrite H. reflexivity.
Qed.

End HandlerFacts.

(** ** The scenario table *)

(** The first match of the specification's table, computed. *)
Lemma spec_first_match_table path :
  spec_first_match spec_table path =
  if str_in "/404" path then Some Row404
  else if str_in "/500" path then Some Row500
  else if str_in "/slow" path then Some RowSlow
  else if str_in "/fail-then-ok" path then Some RowRetry
  else if str_in "/wrong-checksum" path then Some RowWrongChecksum
  else if str_in "/corrupted.zip" path then Some RowCorruptedZip
  else if str_in "/small-file" path then Some RowSmallFile
  else None.
Proof. reflexivity. Qed.

(** C4 (amended): the checks of [do_GET] run top to bottom, in the order of
    the specification's table, and the first one that matches alone decides
    the response, unless that one is "/fail-then-ok" with a count, after
    the increment, of 3 or more.  So a GET whose path contains "/404" is
    answered by [send_error(404, "Not Found")] and by nothing else,
    whatever else the path contains and whatever the counters: no 500, no
    sleep, no counter update, no file served. *)
Theorem first_match_decides environ inherited (r : Request)
    (counts : gmap string Z) (log : list LogCall) :
  rq_command r = "GET" ->
  let st := handle environ inherited r counts log in
  let row := spec_first_match spec_table (rq_path r) in
  ((row = Some RowRetry -> default 0 (counts !! rq_path r) + 1 < 3) ->
   wfile st = spec_events row (rq_path r) /\
   self_path st = rq_path r /\
   request_counts st =
     match row with
     | Some RowRetry =>
         <[rq_path r := default 0 (counts !! rq_path r) + 1]> counts
     | _ => counts
     end) /\
  (str_in "/404" (rq_path r) = true ->
   row = Some Row404 /\
   wfile st = [EvSendError 404 "Not Found"] /\
   status_of inherited (wfile st) = Some 404 /\
   request_counts st = counts /\
   self_path st = rq_path r).
Proof.
  intros Hget st row. subst st row. rewrite spec_first_match_table.
  destruct (str_in "/404" (rq_path r)) eqn:H404.
  { rewrite handle_GET, do_GET_404, send_error_run by assumption.
    split; [intros _|intros _]; repeat split; reflexivity. }
  split; [|discriminate].
  destruct (str_in "/500" (rq_path r)) eqn:H500.
  { intros _. rewrite handle_GET, do_GET_500, send_error_run by assumption.
    repeat split; reflexivity. }
  destruct (str_in "/slow" (rq_path r)) eqn:Hslow.
  { intros _. rewrite handle_GET, do_GET_slow by assumption.
    repeat split; reflexivity. }
  destruct (str_in "/fail-then-ok" (rq_path r)) eqn:Hfto.
  { intros Hc. specialize (Hc eq_refl).
    rewrite handle_GET, do_GET_past_slow by assumption. fields.
    rewrite fail_then_ok_fail by assumption.
    repeat split; reflexivity. }
  intros _. rewrite handle_GET, do_GET_past_slow by assumption. fields.
  rewrite fail_then_ok_skip by assumption.
  destruct (str_in "/wrong-checksum" (rq_path r)) eqn:Hwc.
  { rewrite after_retry_wrong_checksum by assumption.
    repeat split; reflexivity. }
  destruct (str_in "/corrupted.zip" (rq_path r)) eqn:Hzip.
  { rewrite after_retry_corrupted_zip by assumption.
    repeat split; reflexivity. }
  destruct (str_in "/small-file" (rq_path r)) eqn:Hsmall.
  { rewrite after_retry_small_file by assumption.
    repeat split; reflexivity. }
  rewrite after_retry_static, call_inherited_run by assumption.
  repeat split; reflexivity.
Qed.

Lemma first_match_decides_witness :
  let inherited := fixture_server startup_fixtures in
  let r := GET "/500/slow/fail-then-ok/404/wrong-checksum" in
  let st := handle ∅ inherited r ∅ [] in
  let r2 := GET "/fail-then-ok/wrong-checksum" in
  let st2 := handle ∅ inherited r2 {[ "/fail-then-ok/wrong-checksum" := 1 ]} [] in
  (spec_first_match spec_table (rq_path r) = Some Row404 /\
   wfile st = [EvSendError 404 "Not Found"] /\
   status_of inherited (wfile st) = Some 404 /\
   request_counts st = ∅ /\
   self_path st = rq_path r) /\
  spec_first_match spec_table (rq_path r2) = Some RowRetry /\
  wfile st2 = [EvSendError 503 "Service Temporarily Unavailable"].
Proof.
  destruct (first_match_decides ∅ (fixture_server startup_fixtures)
              (GET "/500/slow/fail-then-ok/404/wrong-checksum") ∅ [] eq_refl)
    as (_ & H404).
  destruct (first_match_decides ∅ (fixture_server startup_fixtures)
              (GET "/fail-then-ok/wrong-checksum")
              {[ "/fail-then-ok/wrong-checksum" := 1 ]} [] eq_refl)
    as (Hrow & _).
  split; [apply H404; reflexivity|].
  split; [reflexivity|].
  destruct Hrow as (Hw & _); [intros _; vm_compute; reflexivity|].
  cbv zeta. rewrite Hw. reflexivity.
Defined.



(** C7: a GET whose path contains "/corrupted.zip" and none of the earlier
    scenario substrings is answered 200 with Content-Type application/zip
    and a body of 104 bytes: "PK", 3, 4 and then 100 zero bytes.  The
    handler does exactly this: [send_response(200)], that one header,
    [end_headers()], one write. *)
Theorem corrupted_zip_response environ inherited (r : Request)
    (counts : gmap string Z) (log : list LogCall) :
  rq_command r = "GET" ->
  str_in "/404" (rq_path r) = false ->
  str_in "/500" (rq_path r) = false ->
  str_in "/slow" (rq_path r) = false ->
  str_in "/fail-then-ok" (rq_path r) = false ->
  str_in "/wrong-checksum" (rq_path r) = false ->
  str_in "/corrupted.zip" (rq_path r) = true ->
  let st := handle environ inherited r counts log in
  wfile st =
    [EvSendResponse 200;
     EvSendHeader "Content-Type" "application/zip";
     EvEndHeaders;
     EvWrite ((bytes_lit "PK" ++ [x03; x04]) ++ repeat x00 100)%list] /\
  status_of inherited (wfile st) = Some 200 /\
  content_type_of (wfile st) = Some "application/zip" /\
  body_of (wfile st) = ((bytes_lit "PK" ++ [x03; x04]) ++ repeat x00 100)%list /\
  length (body_of (wfile st)) = 104%nat.
Proof.
  intros Hget H404 H500 Hslow Hfto Hwc Hzip st. subst st.
  rewrite handle_GET by assumption.
  rewrite do_GET_past_slow by assumption.
  cbn [self_path]. rewrite fail_then_ok_skip by assumption.
  rewrite after_retry_corrupted_zip by assumption.
  cbn [snd wfile app status_of event_status content_type_of body_of String.eqb].
  rewrite app_nil_r.
  repeat split; reflexivity.
Qed.

Lemma corrupted_zip_response_witness :
  let st := handle ∅ (fixture_server startup_fixtures)
              (GET "/releases/corrupted.zip") ∅ [] in
  wfile st =
    [EvSendResponse 200;
     EvSendHeader "Content-Type" "application/zip";
     EvEndHeaders;
     EvWrite ((bytes_lit "PK" ++ [x03; x04]) ++ repeat x00 100)%list] /\
  status_of (fixture_server startup_fixtures) (wfile st) = Some 200 /\
  content_type_of (wfile st) = Some "application/zip" /\
  body_of (wfile st) = ((bytes_lit "PK" ++ [x03; x04]) ++ repeat x00 100)%list /\
  length (body_of (wfile st)) = 104%nat.
Proof.
  apply (corrupted_zip_response ∅ (fixture_server startup_fixtures)
           (GET "/releases/corrupted.zip") ∅ []); reflexivity.
Defined.

(** The remaining rows of the table, each under the checks above it. *)

(** X1: a GET whose path contains "/500" and not "/404" is answered by
    [send_error(500, "Internal Server Error")] alone, and the counters stay
    as they are. *)
Lemma path_500_response environ inherited (r : Request) counts log :
  rq_command r = "GET" ->
  str_in "/404" (rq_path r) = false ->
  str_in "/500" (rq_path r) = true ->
  wfile (handle environ inherited r counts log) =
    [EvSendError 500 "Internal Server Error"] /\
  request_counts (handle environ inherited r counts log) = counts.
Proof.
  intros Hget H404 H500.
  rewrite handle_GET, do_GET_500, send_error_run by assumption.
  split; reflexivity.
Qed.

(** X2: a GET whose path contains "/slow" and neither "/404" nor "/500"
    sleeps 120 seconds and then sends a bare 200: no header of its own, no
    body, no counter update. *)
Lemma slow_response environ inherited (r : Request) counts log :
  rq_command r = "GET" ->
  str_in "/404" (rq_path r) = false ->
  str_in "/500" (rq_path r) = false ->
  str_in "/slow" (rq_path r) = true ->
  wfile (handle environ inherited r counts log) =
    [EvSleep 120; EvSendResponse 200; EvEndHeaders] /\
  request_counts (handle environ inherited r counts log) = counts.
Proof.
  intros Hget H404 H500 Hslow.
  rewrite handle_GET, do_GET_slow by assumption.
  split; reflexivity.
Qed.

(** X3: a GET whose path contains "/small-file" and none of the substrings
    tested before it is answered by exactly [send_response(200)], the
    Content-Type header application/octet-stream, [end_headers()] and one
    write of the nine bytes of "too small"; the counters stay as they are. *)
Lemma small_file_response environ inherited (r : Request) counts log :
  rq_command r = "GET" ->
  str_in "/404" (rq_path r) = false ->
  str_in "/500" (rq_path r) = false ->
  str_in "/slow" (rq_path r) = false ->
  str_in "/fail-then-ok" (rq_path r) = false ->
  str_in "/wrong-checksum" (rq_path r) = false ->
  str_in "/corrupted.zip" (rq_path r) = false ->
  str_in "/small-file" (rq_path r) = true ->
  let st := handle environ inherited r counts log in
  wfile st =
    [EvSendResponse 200;
     EvSendHeader "Content-Type" "application/octet-stream";
     EvEndHeaders;
     EvWrite (bytes_lit "too small")] /\
  status_of inherited (wfile st) = Some 200 /\
  content_type_of (wfile st) = Some "application/octet-stream" /\
  body_of (wfile st) = bytes_lit "too small" /\
  length (body_of (wfile st)) = 9%nat /\
  request_counts st = counts.
Proof.
  intros Hget H404 H500 Hslow Hfto Hwc Hzip Hsmall st. subst st.
  rewrite handle_GET by assumption.
  rewrite do_GET_past_slow by assumption.
  cbn [self_path]. rewrite fail_then_ok_skip by assumption.
  rewrite after_retry_small_file by assumption.
  repeat split; reflexivity.
Qed.

(** ** Methods other than GET *)

Lemma MockHandler_method_other environ inherited command :
  command <> "GET" ->
  MockHandler_method environ inherited ("do_" ++ command) = None.
Proof.
  intros H. unfold MockHandler_method.
  change ("do_" ++ command) with (String "d" (String "o" (String "_" command))).
  cbn [String.eqb Ascii.eqb Bool.eqb].
  destruct (String.eqb_spec command "GET") as [E|E]; [contradiction|reflexivity].
Qed.

Lemma handle_other environ inherited r counts log :
  rq_command r <> "GET" ->
  handle environ inherited r counts log =
  mkState counts (rq_command r) (rq_path r) (requestline r)
    [EvSuper ("do_" ++ rq_command r) (rq_path r)]
    (log ++ logged environ
       (sr_log (inherited ("do_" ++ rq_command r) (rq_path r)))).
Proof.
  intros H. unfold handle, handle_one_request. cbn [self_command].
  rewrite MockHandler_method_other by assumption.
  rewrite call_inherited_run. reflexivity.
Qed.

(** C9: [MockHandler] defines no [do_*] method but [do_GET].  A request with
    any other method (HEAD, POST, ...) is handled by the inherited method on
    the unchanged path, whatever scenario substring the path contains, and
    [request_counts] stays as it was. *)
Theorem other_methods_inherited environ inherited (r : Request)
    (counts : gmap string Z) (log : list LogCall) :
  rq_command r <> "GET" ->
  let st := handle environ inherited r counts log in
  MockHandler_method environ inherited ("do_" ++ rq_command r) = None /\
  wfile st = [EvSuper ("do_" ++ rq_command r) (rq_path r)] /\
  status_of inherited (wfile st) =
    Some (sr_status (inherited ("do_" ++ rq_command r) (rq_path r))) /\
  self_path st = rq_path r /\
  request_counts st = counts.
Proof.
  intros H st. subst st. rewrite handle_other by assumption.
  split; [now apply MockHandler_method_other|].
  simpl. auto.
Qed.

Lemma other_methods_inherited_witness :
  let r := mkRequest "HEAD" "/404/fail-then-ok/x" "HTTP/1.1" in
  let counts : gmap string Z := {[ "/404/fail-then-ok/x" := 1 ]} in
  let inherited := fixture_server startup_fixtures in
  let st := handle ∅ inherited r counts [] in
  MockHandler_method ∅ inherited ("do_" ++ rq_command r) = None /\
  wfile st = [EvSuper ("do_" ++ rq_command r) (rq_path r)] /\
  status_of inherited (wfile st) =
    Some (sr_status (inherited ("do_" ++ rq_command r) (rq_path r))) /\
  self_path st = rq_path r /\
  request_counts st = counts.
Proof.
  apply (other_methods_inherited ∅ (fixture_server startup_fixtures)
           (mkRequest "HEAD" "/404/fail-then-ok/x" "HTTP/1.1")
           {[ "/404/fail-then-ok/x" := 1 ]} []).
  simpl. discriminate.
Defined.

(** ** Logging *)

(** The shape of every handling.  Given the request and the count [c] its
    path has in [request_counts], everything else is fixed: whether the
    counter is bumped, the path served, the events on the connection and the
    library's log calls.  The environment only filters the log, and no
    counter but the path's own is touched.  A GET request makes at least one
    log call, unless it is passed to the inherited handler and that one
    makes none. *)
Lemma handle_shape inherited (r : Request) (c : Z) :
  exists (bumped : bool) path' evs calls,
    (forall counts environ log,
        default 0 (counts !! rq_path r) = c ->
        handle environ inherited r counts log =
        mkState (if bumped then <[rq_path r := c + 1]> counts else counts)
          (rq_command r) path' (requestline r) evs
          (log ++ logged environ calls)) /\
    (rq_command r = "GET" -> calls = [] ->
     evs = [EvSuper "do_GET" path'] /\
     sr_log (inherited "do_GET" path') = []).
Proof.
  destruct (String.eqb_spec (rq_command r) "GET") as [Hget|Hother].
  2:{ exists false. eexists _, _, _. split.
      - intros counts environ log _.
        rewrite handle_other by assumption. reflexivity.
      - intros E. contradiction. }
  assert (Hfin : forall (P : Prop) x (l : list LogCall), x :: l = [] -> P)
    by (intros P x l E; discriminate E).
  destruct (str_in "/404" (rq_path r)) eqn:H404.
  { exists false. eexists _, _, _. split.
    - intros counts environ log _.
      rewrite handle_GET, do_GET_404 by assumption.
      rewrite send_error_run. fields. rewrite Hget. reflexivity.
    - intros _. apply Hfin. }
  destruct (str_in "/500" (rq_path r)) eqn:H500.
  { exists false. eexists _, _, _. split.
    - intros counts environ log _.
      rewrite handle_GET, do_GET_500 by assumption.
      rewrite send_error_run. fields. rewrite Hget. reflexivity.
    - intros _. apply Hfin. }
  destruct (str_in "/slow" (rq_path r)) eqn:Hslow.
  { exists false. eexists _, _, _. split.
    - intros counts environ log _.
      rewrite handle_GET, do_GET_slow by assumption.
      fields. rewrite Hget. reflexivity.
    - intros _. apply Hfin. }
  assert (Hrest : forall path0 : string,
    exists evs calls,
      (forall counts0 environ log,
          snd (after_retry environ inherited (rq_path r)
                 (mkState counts0 "GET" path0 (requestline r) [] log)) =
          mkState counts0 (rq_command r) path0 (requestline r) evs
            (log ++ logged environ calls)) /\
      (calls = [] ->
       evs = [EvSuper "do_GET" path0] /\
       sr_log (inherited "do_GET" path0) = [])).
  { intros path0.
    destruct (str_in "/wrong-checksum" (rq_path r)) eqn:Hwc.
    { eexists _, _. split.
      - intros counts0 environ log.
        rewrite after_retry_wrong_checksum by assumption.
        fields. rewrite Hget. reflexivity.
      - apply Hfin. }
    destruct (str_in "/corrupted.zip" (rq_path r)) eqn:Hzip.
    { eexists _, _. split.
      - intros counts0 environ log.
        rewrite after_retry_corrupted_zip by assumption.
        fields. rewrite Hget. reflexivity.
      - apply Hfin. }
    destruct (str_in "/small-file" (rq_path r)) eqn:Hsmall.
    { eexists _, _. split.
      - intros counts0 environ log.
        rewrite after_retry_small_file by assumption.
        fields. rewrite Hget. reflexivity.
      - apply Hfin. }
    eexists _, _. split.
    - intros counts0 environ log. rewrite after_retry_static by assumption.
      rewrite call_inherited_run. fields. rewrite Hget. reflexivity.
    - intros E. split; [reflexivity|exact E]. }
  destruct (str_in "/fail-then-ok" (rq_path r)) eqn:Hfto.
  2:{ destruct (Hrest (rq_path r)) as (evs & calls & Hrun & Hcalls).
      exists false, (rq_path r), evs, calls. split.
      - intros counts environ log _. rewrite handle_GET by assumption.
        rewrite do_GET_past_slow by assumption.
        fields. rewrite fail_then_ok_skip by assumption.
        apply Hrun.
      - intros _. exact Hcalls. }
  destruct (Z.lt_ge_cases (c + 1) 3) as [Hlt|Hge].
  { exists true. eexists _, _, _. split.
    - intros counts environ log Hc. rewrite handle_GET by assumption.
      rewrite do_GET_past_slow by assumption.
      fields. rewrite fail_then_ok_fail by (fields; first [assumption|lia]).
      fields. rewrite Hget, Hc. reflexivity.
    - intros _. apply Hfin. }
  destruct (Hrest (str_or (str_replace "/fail-then-ok" "" (rq_path r)) "/"))
    as (evs & calls & Hrun & Hcalls).
  exists true. eexists _, evs, calls. split.
  - intros counts environ log Hc. rewrite handle_GET by assumption.
    rewrite do_GET_past_slow by assumption.
    fields. rewrite fail_then_ok_pass by (fields; first [assumption|lia]).
    fields. rewrite Hc. apply Hrun.
  - intros _. exact Hcalls.
Qed.

Lemma debug_enabled_iff (environ : gmap string string) :
  debug_enabled environ = true <->
  exists v, environ !! "DEBUG" = Some v /\ v <> "".
Proof.
  unfold debug_enabled. split.
  - destruct (environ !! "DEBUG") as [[|c v]|]; try discriminate.
    intros _. exists (String c v). split; [reflexivity|discriminate].
  - intros (v & -> & Hv). destruct v; [contradiction|reflexivity].
Qed.

(** C10: logging is on exactly when the environment variable DEBUG is set
    to a non-empty string, whatever the string ("0" and "false" included):
    [log_message] then passes every call on to the base class, and otherwise
    drops it.  The toggle changes nothing else: the events on the
    connection, the path served and the counters are the same in every
    environment.  With logging on, a GET request leaves at least one log
    call, unless the inherited handler answered and logged nothing. *)
Theorem debug_toggle environ inherited (r : Request)
    (counts : gmap string Z) (log : list LogCall) :
  (debug_enabled environ = true <->
   exists v, environ !! "DEBUG" = Some v /\ v <> "") /\
  (forall format args st,
      snd (log_message environ format args st) =
      if debug_enabled environ
      then snd (write_log (mkLogCall format args) st)
      else st) /\
  (forall environ' log',
      let st := handle environ inherited r counts log in
      let st' := handle environ' inherited r counts log' in
      wfile st = wfile st' /\
      status_of inherited (wfile st) = status_of inherited (wfile st') /\
      request_counts st = request_counts st' /\
      self_path st = self_path st') /\
  (debug_enabled environ = false ->
   stderr (handle environ inherited r counts log) = log) /\
  (debug_enabled environ = true ->
   rq_command r = "GET" ->
   stderr (handle environ inherited r counts log) = log ->
   exists p, wfile (handle environ inherited r counts log) = [EvSuper "do_GET" p] /\
             sr_log (inherited "do_GET" p) = []).
Proof.
  destruct (handle_shape inherited r (default 0 (counts !! rq_path r)))
    as (bumped & path' & evs & calls & Hrun & Hcalls).
  split; [apply debug_enabled_iff|].
  split.
  { intros format args st. unfold log_message.
    destruct (debug_enabled environ); reflexivity. }
  split.
  { intros environ' log'. cbv zeta. rewrite !Hrun by reflexivity. fields. auto. }
  split.
  - intros Hoff. rewrite Hrun by reflexivity. fields. unfold logged. rewrite Hoff.
    apply app_nil_r.
  - intros Hon Hget. rewrite Hrun by reflexivity. fields. unfold logged. rewrite Hon.
    intros E. exists path'. apply Hcalls; [assumption|].
    apply (app_inv_head log). now rewrite app_nil_r.
Qed.

Lemma debug_toggle_witness :
  let environ : gmap string string := {[ "DEBUG" := "0" ]} in
  let inherited := fixture_server startup_fixtures in
  let r := GET "/500/x" in
  debug_enabled environ = true /\
  debug_enabled {[ "DEBUG" := "false" ]} = true /\
  debug_enabled {[ "DEBUG" := "" ]} = false /\
  debug_enabled ∅ = false /\
  stderr (handle environ inherited r ∅ []) =
    [error_log 500 "Internal Server Error";
     request_log "GET /500/x HTTP/1.1" 500] /\
  stderr (handle ∅ inherited r ∅ []) = [] /\
  wfile (handle environ inherited r ∅ []) = wfile (handle ∅ inherited r ∅ []).
Proof.
  pose proof (debug_toggle {[ "DEBUG" := "0" ]}
                (fixture_server startup_fixtures) (GET "/500/x") ∅ [])
    as (_ & _ & Hsame & _ & _).
  destruct (Hsame ∅ []) as (Hw & _).
  do 6 (split; [reflexivity|]). exact Hw.
Defined.

(** ** Startup *)

Lemma string_length_app (s1 s2 : string) :
  String.length (s1 ++ s2) = (String.length s1 + String.length s2)%nat.
Proof.
  induction s1 as [|a s1 IH]; [reflexivity|].
  change (String a s1 ++ s2) with (String a (s1 ++ s2)).
  simpl. now rewrite IH.
Qed.

Lemma os_path_join_longer a c s :
  (String.length a < String.length (os_path_join a (String c s)))%nat.
Proof.
  unfold os_path_join. destruct a as [|a0 a]; [simpl; lia|].
  destruct (endswith_slash (String a0 a)).
  - rewrite string_length_app. simpl. lia.
  - rewrite !string_length_app. simpl. lia.
Qed.

Lemma os_path_join_neq a c s : os_path_join a (String c s) <> a.
Proof.
  intros E. pose proof (os_path_join_longer a c s) as H.
  rewrite E in H. lia.
Qed.

Lemma mock_binary_zeros :
  Z.of_nat (length (bytes_mul [x00] (2 * 1024 * 1024))) = 2097152 /\
  Forall (fun x => x = x00) (bytes_mul [x00] (2 * 1024 * 1024)).
Proof.
  split.
  - rewrite bytes_mul_length by lia. reflexivity.
  - apply bytes_repeat_Forall. repeat constructor.
Qed.



(** ** The retry counter *)

Lemma after_retry_counts environ inherited path st :
  request_counts (snd (after_retry environ inherited path st)) =
  request_counts st.
Proof.
  destruct (str_in "/wrong-checksum" path) eqn:Hwc;
    [now rewrite after_retry_wrong_checksum|].
  destruct (str_in "/corrupted.zip" path) eqn:Hzip;
    [now rewrite after_retry_corrupted_zip|].
  destruct (str_in "/small-file" path) eqn:Hsmall;
    [now rewrite after_retry_small_file|].
  rewrite after_retry_static, call_inherited_run by assumption. reflexivity.
Qed.

Lemma after_retry_answers_200 environ inherited path st :
  wfile st = [] ->
  str_in "/wrong-checksum" path = true \/
  str_in "/corrupted.zip" path = true \/
  str_in "/small-file" path = true \/
  sr_status (inherited "do_GET" (self_path st)) = 200 ->
  status_of inherited (wfile (snd (after_retry environ inherited path st))) =
  Some 200.
Proof.
  intros Hw Hok.
  destruct (str_in "/wrong-checksum" path) eqn:Hwc.
  { rewrite after_retry_wrong_checksum by assumption. fields.
    now rewrite Hw. }
  destruct (str_in "/corrupted.zip" path) eqn:Hzip.
  { rewrite after_retry_corrupted_zip by assumption. fields.
    now rewrite Hw. }
  destruct (str_in "/small-file" path) eqn:Hsmall.
  { rewrite after_retry_small_file by assumption. fields.
    now rewrite Hw. }
  rewrite after_retry_static, call_inherited_run by assumption. fields.
  rewrite Hw. simpl.
  destruct Hok as [E|[E|[E|E]]]; try discriminate E. now rewrite E.
Qed.

Section Retry.

Variable environ : gmap string string.
Variable inherited : string -> string -> SuperReply.

Variable r : Request.
Hypothesis Hget : rq_command r = "GET".
Hypothesis Hfto : str_in "/fail-then-ok" (rq_path r) = true.
Hypothesis H404 : str_in "/404" (rq_path r) = false.
Hypothesis H500 : str_in "/500" (rq_path r) = false.
Hypothesis Hslow : str_in "/slow" (rq_path r) = false.

Lemma handle_retry_fail counts log :
  default 0 (counts !! rq_path r) + 1 < 3 ->
  handle environ inherited r counts log =
  mkState (<[rq_path r := default 0 (counts !! rq_path r) + 1]> counts)
    "GET" (rq_path r) (requestline r)
    [EvSendError 503 "Service Temporarily Unavailable"]
    (log ++ logged environ
       [error_log 503 "Service Temporarily Unavailable";
        request_log (requestline r) 503]).
Proof.
  intros Hc. rewrite handle_GET by assumption.
  rewrite do_GET_past_slow by assumption. fields.
  rewrite fail_then_ok_fail by assumption. reflexivity.
Qed.

Lemma handle_retry_pass counts log :
  3 <= default 0 (counts !! rq_path r) + 1 ->
  handle environ inherited r counts log =
  snd (after_retry environ inherited (rq_path r)
         (mkState (<[rq_path r := default 0 (counts !! rq_path r) + 1]> counts)
            "GET" (str_or (str_replace "/fail-then-ok" "" (rq_path r)) "/")
            (requestline r) [] log)).
Proof.
  intros Hc. rewrite handle_GET by assumption.
  rewrite do_GET_past_slow by assumption. fields.
  rewrite fail_then_ok_pass by assumption. reflexivity.
Qed.

Lemma handle_retry_count counts log :
  default 0 (request_counts (handle environ inherited r counts log)
               !! rq_path r) =
  default 0 (counts !! rq_path r) + 1.
Proof.
  destruct (Z.lt_ge_cases (default 0 (counts !! rq_path r) + 1) 3) as [Hlt|Hge].
  - rewrite handle_retry_fail by assumption. fields.
    now rewrite lookup_insert_eq.
  - rewrite handle_retry_pass by assumption.
    rewrite after_retry_counts. fields. now rewrite lookup_insert_eq.
Qed.

End Retry.

Lemma counts_after_cons counts s l :
  counts_after counts (s :: l) = counts_after (request_counts (final s)) l.
Proof. reflexivity. Qed.

Lemma statuses_cons environ inherited c rest now counts log :
  statuses inherited
    (serve_forever environ inherited (c :: rest) now counts log) =
  status_of inherited (wfile (handle environ inherited (request c) counts log))
  :: statuses inherited
       (serve_forever environ inherited rest
          (Z.max now (arrival c) +
           duration (wfile (handle environ inherited (request c) counts log)))
          (request_counts (handle environ inherited (request c) counts log))
          (stderr (handle environ inherited (request c) counts log))).
Proof. reflexivity. Qed.

Lemma gets_cons path t ts :
  gets path (t :: ts) = mkConnection t (GET path) :: gets path ts.
Proof. reflexivity. Qed.

(** Statuses of a run of requests to one retry path, from any counter. *)
Lemma retry_statuses environ inherited P :
  str_in "/fail-then-ok" P = true ->
  str_in "/404" P = false ->
  str_in "/500" P = false ->
  str_in "/slow" P = false ->
  str_in "/wrong-checksum" P = true \/
  str_in "/corrupted.zip" P = true \/
  str_in "/small-file" P = true \/
  sr_status (inherited "do_GET"
               (str_or (str_replace "/fail-then-ok" "" P) "/")) = 200 ->
  forall ts now counts log,
    statuses inherited
      (serve_forever environ inherited (gets P ts) now counts log) =
    map (fun i => Some (if default 0 (counts !! P) + Z.of_nat i + 1 <? 3
                        then 503 else 200))
        (seq 0 (length ts)).
Proof.
  intros Hfto H404 H500 Hslow Hok ts.
  induction ts as [|t ts IH]; intros now counts log; [reflexivity|].
  rewrite gets_cons, statuses_cons. cbn [request arrival length seq].
  rewrite IH. rewrite <- seq_shift. cbn [map]. rewrite List.map_map.
  assert (Hcount : default 0 (request_counts
                      (handle environ inherited (GET P) counts log) !! P) =
                   default 0 (counts !! P) + 1).
  { now apply (handle_retry_count environ inherited (GET P)). }
  rewrite Hcount. f_equal.
  - change (Z.of_nat 0) with 0. rewrite Z.add_0_r.
    destruct (Z.ltb_spec (default 0 (counts !! P) + 1) 3) as [Hlt|Hge].
    + rewrite handle_retry_fail by (assumption || reflexivity). reflexivity.
    + rewrite handle_retry_pass by (assumption || reflexivity).
      now rewrite after_retry_answers_200.
  - apply map_ext. intros i.
    replace (default 0 (counts !! P) + 1 + Z.of_nat i + 1)
      with (default 0 (counts !! P) + Z.of_nat (S i) + 1) by lia.
    reflexivity.
Qed.


(** ** Counters of different paths *)

Lemma handle_frame environ inherited r counts log k :
  k <> rq_path r ->
  request_counts (handle environ inherited r counts log) !! k = counts !! k.
Proof.
  intros Hk.
  destruct (handle_shape inherited r (default 0 (counts !! rq_path r)))
    as (bumped & path' & evs & calls & Hrun & _).
  rewrite Hrun by reflexivity. fields.
  destruct bumped; [|reflexivity].
  apply lookup_insert_ne. congruence.
Qed.

(** What is done on the connection depends on the counters through the
    count of the request's own path only. *)
Lemma handle_own_count environ1 environ2 inherited r counts1 counts2 log1 log2 :
  default 0 (counts1 !! rq_path r) = default 0 (counts2 !! rq_path r) ->
  wfile (handle environ1 inherited r counts1 log1) =
  wfile (handle environ2 inherited r counts2 log2) /\
  self_path (handle environ1 inherited r counts1 log1) =
  self_path (handle environ2 inherited r counts2 log2).
Proof.
  intros Hc.
  destruct (handle_shape inherited r (default 0 (counts1 !! rq_path r)))
    as (bumped & path' & evs & calls & Hrun & _).
  rewrite (Hrun counts1) by reflexivity.
  rewrite (Hrun counts2) by (symmetry; exact Hc).
  split; reflexivity.
Qed.

Lemma serve_frame environ inherited k conns :
  Forall (fun c => rq_path (request c) <> k) conns ->
  forall now counts log,
    counts_after counts (serve_forever environ inherited conns now counts log)
      !! k = counts !! k.
Proof.
  induction 1 as [|c conns Hc _ IH]; intros now counts log; [reflexivity|].
  cbn [serve_forever]. rewrite counts_after_cons. cbn [final].
  rewrite IH. apply handle_frame. congruence.
Qed.

Lemma gets_paths path ts :
  Forall (fun c => rq_path (request c) = path) (gets path ts).
Proof. induction ts; constructor; [reflexivity|assumption]. Qed.

Lemma serve_gets_count environ inherited P :
  str_in "/fail-then-ok" P = true ->
  str_in "/404" P = false ->
  str_in "/500" P = false ->
  str_in "/slow" P = false ->
  forall ts now counts log,
    default 0
      (counts_after counts
         (serve_forever environ inherited (gets P ts) now counts log) !! P) =
    default 0 (counts !! P) + Z.of_nat (length ts).
Proof.
  intros Hfto H404 H500 Hslow ts.
  induction ts as [|t ts IH]; intros now counts log.
  - cbn. lia.
  - rewrite gets_cons. cbn [serve_forever]. rewrite counts_after_cons.
    cbn [final request arrival]. rewrite IH.
    rewrite (handle_retry_count environ inherited (GET P))
      by (assumption || reflexivity).
    cbn [length rq_path GET]. lia.
Qed.

(** C1 (amended): a path [P] that contains "/fail-then-ok" and none of
    "/404", "/500", "/slow", and whose answer past the retry block is 200
    ([P] also contains "/wrong-checksum", "/corrupted.zip" or "/small-file",
    or the inherited file server answers 200 for [P] with every
    "/fail-then-ok" removed).  From an empty counter table, sequential GET
    requests to [P] are answered 503, 503 and then 200 for the third and
    every later one: the counter is never reset. *)
Theorem fail_then_ok_sequence environ inherited (P : string) (ts : list Z)
    (now : Z) (log : list LogCall) :
  str_in "/fail-then-ok" P = true ->
  str_in "/404" P = false ->
  str_in "/500" P = false ->
  str_in "/slow" P = false ->
  str_in "/wrong-checksum" P = true \/
  str_in "/corrupted.zip" P = true \/
  str_in "/small-file" P = true \/
  sr_status (inherited "do_GET"
               (str_or (str_replace "/fail-then-ok" "" P) "/")) = 200 ->
  statuses inherited (serve_forever environ inherited (gets P ts) now ∅ log) =
  map (fun i => Some (if (i <? 2)%nat then 503 else 200)) (seq 0 (length ts)).
Proof.
  intros Hfto H404 H500 Hslow Hok.
  rewrite retry_statuses by assumption.
  apply map_ext. intros i. rewrite lookup_empty. cbn [default].
  destruct (Nat.ltb_spec i 2), (Z.ltb_spec (0 + Z.of_nat i + 1) 3);
    first [reflexivity|lia].
Qed.

Lemma fail_then_ok_sequence_witness :
  statuses (fixture_server startup_fixtures)
    (serve_forever ∅ (fixture_server startup_fixtures)
       (gets "/fail-then-ok/mock_binary" [0; 1; 2; 3]) 0 ∅ []) =
  [Some 503; Some 503; Some 200; Some 200].
Proof.
  apply (fail_then_ok_sequence ∅ (fixture_server startup_fixtures)
           "/fail-then-ok/mock_binary" [0; 1; 2; 3] 0 []);
    try reflexivity.
  right. right. right. reflexivity.
Defined.

(** C1 as stated fails: a retry path that matches an earlier check is
    answered by that check all three times, and one that points at no
    fixture gets the file server's 404 on the third request. *)
Lemma fail_then_ok_sequence_counterexample :
  let inherited := fixture_server startup_fixtures in
  (str_in "/fail-then-ok" "/404/fail-then-ok" = true /\
   statuses inherited
     (serve_forever ∅ inherited (gets "/404/fail-then-ok" [0; 1; 2]) 0 ∅ []) =
   [Some 404; Some 404; Some 404]) /\
  (str_in "/fail-then-ok" "/fail-then-ok/missing" = true /\
   statuses inherited
     (serve_forever ∅ inherited (gets "/fail-then-ok/missing" [0; 1; 2]) 0 ∅ []) =
   [Some 503; Some 503; Some 404]).
Proof. repeat split; vm_compute; reflexivity. Qed.

(** C5: requests to a path [P1] touch no counter but [P1]'s own.  After any
    number of GET requests to [P1], the entry of a different path [P2], and
    of every other key, is what it was, and a request to [P2] is answered as
    it would have been without them.  When [P1] is a retry path that reaches
    the retry check, each request adds exactly one to [P1]'s own count. *)
Theorem counters_independent environ inherited (P1 P2 : string)
    (ts : list Z) (now : Z) (counts : gmap string Z) (log : list LogCall) :
  P1 <> P2 ->
  let counts' :=
    counts_after counts
      (serve_forever environ inherited (gets P1 ts) now counts log) in
  counts' !! P2 = counts !! P2 /\
  (forall k, k <> P1 -> counts' !! k = counts !! k) /\
  (forall log1 log2,
      wfile (handle environ inherited (GET P2) counts' log1) =
      wfile (handle environ inherited (GET P2) counts log2) /\
      self_path (handle environ inherited (GET P2) counts' log1) =
      self_path (handle environ inherited (GET P2) counts log2)) /\
  (str_in "/fail-then-ok" P1 = true ->
   str_in "/404" P1 = false ->
   str_in "/500" P1 = false ->
   str_in "/slow" P1 = false ->
   default 0 (counts' !! P1) = default 0 (counts !! P1) + Z.of_nat (length ts)).
Proof.
  intros Hne counts'.
  assert (Hframe : forall k, k <> P1 -> counts' !! k = counts !! k).
  { intros k Hk. subst counts'. apply serve_frame.
    eapply List.Forall_impl; [|apply gets_paths].
    intros c Hc. cbn beta in Hc. congruence. }
  split; [apply Hframe; congruence|].
  split; [exact Hframe|].
  split.
  - intros log1 log2. apply handle_own_count. cbn [rq_path GET].
    rewrite Hframe by congruence. reflexivity.
  - intros Hfto H404 H500 Hslow. now apply serve_gets_count.
Qed.

Lemma counters_independent_witness :
  let inherited := fixture_server startup_fixtures in
  let P1 := "/fail-then-ok/a" in
  let P2 := "/fail-then-ok/b" in
  let counts : gmap string Z := {[ P2 := 1 ]} in
  let counts' :=
    counts_after counts
      (serve_forever ∅ inherited (gets P1 [0; 1; 2]) 0 counts []) in
  counts' !! P2 = Some 1 /\
  counts' !! P1 = Some 3 /\
  wfile (handle ∅ inherited (GET P2) counts' []) =
    [EvSendError 503 "Service Temporarily Unavailable"].
Proof.
  pose proof (counters_independent ∅ (fixture_server startup_fixtures)
                "/fail-then-ok/a" "/fail-then-ok/b" [0; 1; 2] 0
                {[ "/fail-then-ok/b" := 1 ]} []) as H.
  destruct H as (H2 & _ & Hans & _); [discriminate|].
  split; [rewrite H2; reflexivity|].
  split; [reflexivity|].
  destruct (Hans [] []) as (Hw & _). rewrite Hw. reflexivity.
Defined.

(** ** Past the retry block *)

Lemma replace_from_absent old new s :
  str_in old s = false -> replace_from old new 0 s = s.
Proof.
  induction s as [|c s IH]; [reflexivity|].
  cbn [str_in]. intros H. apply orb_false_elim in H as [Hp Hs].
  cbn [replace_from]. rewrite Hp. now rewrite IH.
Qed.

(** Removing the occurrences from a path that starts with "/fail-then-ok"
    and has no further one strips exactly that prefix. *)
Lemma strip_prefix rest :
  str_in "/fail-then-ok" rest = false ->
  str_replace "/fail-then-ok" "" ("/fail-then-ok" ++ rest) = rest.
Proof.
  intros H.
  change (str_replace "/fail-then-ok" "" ("/fail-then-ok" ++ rest))
    with (replace_from "/fail-then-ok" "" 0 rest).
  now apply replace_from_absent.
Qed.

(** Every occurrence goes, whether at the front or not. *)
Example replace_everywhere :
  str_replace "/fail-then-ok" "" "/v1/fail-then-ok/x/fail-then-ok" = "/v1/x" /\
  str_or (str_replace "/fail-then-ok" "" "/fail-then-ok") "/" = "/".
Proof. split; reflexivity. Qed.

(** C3 (amended): on the third and later requests to a retry path [P] that
    contains none of "/wrong-checksum", "/corrupted.zip", "/small-file",
    the handler sets [self.path] to [P] with every occurrence of
    "/fail-then-ok" removed ("/" when nothing is left; for a path that
    starts with its only occurrence, the path without that prefix) and the
    response is exactly that of the inherited file server for that path. *)
Theorem retry_pass_serves_file environ inherited (r : Request)
    (counts : gmap string Z) (log : list LogCall) :
  rq_command r = "GET" ->
  str_in "/fail-then-ok" (rq_path r) = true ->
  str_in "/404" (rq_path r) = false ->
  str_in "/500" (rq_path r) = false ->
  str_in "/slow" (rq_path r) = false ->
  3 <= default 0 (counts !! rq_path r) + 1 ->
  str_in "/wrong-checksum" (rq_path r) = false ->
  str_in "/corrupted.zip" (rq_path r) = false ->
  str_in "/small-file" (rq_path r) = false ->
  let st := handle environ inherited r counts log in
  self_path st = str_or (str_replace "/fail-then-ok" "" (rq_path r)) "/" /\
  (forall rest, rq_path r = "/fail-then-ok" ++ rest ->
                str_in "/fail-then-ok" rest = false ->
                self_path st = str_or rest "/") /\
  wfile st = [EvSuper "do_GET" (self_path st)] /\
  status_of inherited (wfile st) =
    Some (sr_status (inherited "do_GET" (self_path st))) /\
  request_counts st =
    <[rq_path r := default 0 (counts !! rq_path r) + 1]> counts.
Proof.
  intros Hget Hfto H404 H500 Hslow Hc Hwc Hzip Hsmall st. subst st.
  rewrite handle_retry_pass by assumption.
  rewrite after_retry_static, call_inherited_run by assumption. fields.
  split; [reflexivity|].
  split; [|cbn; auto].
  intros rest -> Hrest. now rewrite strip_prefix.
Qed.

Lemma retry_pass_serves_file_witness :
  let inherited := fixture_server startup_fixtures in
  let r := GET "/fail-then-ok/mock_binary" in
  let counts : gmap string Z := {[ "/fail-then-ok/mock_binary" := 2 ]} in
  let st := handle ∅ inherited r counts [] in
  self_path st = "/mock_binary" /\
  wfile st = [EvSuper "do_GET" "/mock_binary"] /\
  status_of inherited (wfile st) = Some 200.
Proof.
  pose proof (retry_pass_serves_file ∅ (fixture_server startup_fixtures)
                (GET "/fail-then-ok/mock_binary")
                {[ "/fail-then-ok/mock_binary" := 2 ]} []) as H.
  destruct H as (Hp & _ & Hw & Hs & _);
    try reflexivity; try (intros E; discriminate E).
  cbv zeta.
  split; [rewrite Hp; reflexivity|].
  split; [rewrite Hw, Hp; reflexivity|].
  rewrite Hs, Hp. reflexivity.
Defined.

(** C3 as stated fails on a retry path that also contains a later scenario
    substring: the third request to "/fail-then-ok/wrong-checksum" gets the
    wrong-checksum body with status 200, not what the file server answers
    for the rewritten path "/wrong-checksum" (404: no such fixture). *)
Lemma retry_pass_serves_file_counterexample :
  let inherited := fixture_server startup_fixtures in
  let P := "/fail-then-ok/wrong-checksum" in
  let st := handle ∅ inherited (GET P) {[ P := 2 ]} [] in
  str_in "/fail-then-ok" P = true /\
  request_counts st !! P = Some 3 /\
  self_path st = "/wrong-checksum" /\
  wfile st <> [EvSuper "do_GET" (self_path st)] /\
  status_of inherited (wfile st) = Some 200 /\
  sr_status (inherited "do_GET" (self_path st)) = 404.
Proof.
  intros inherited P st.
  assert (E : st =
    mkState (<[P := 3]> {[ P := 2 ]}) "GET" "/wrong-checksum"
      (requestline (GET P))
      [EvSendResponse 200;
       EvSendHeader "Content-Type" "application/octet-stream";
       EvEndHeaders;
       EvWrite (bytes_mul (bytes_lit "wrong content ") 100000)] []).
  { subst st.
    rewrite handle_retry_pass by reflexivity.
    rewrite after_retry_wrong_checksum by reflexivity. fields.
    cbn [rq_path GET]. rewrite lookup_singleton_eq. reflexivity. }
  rewrite E. fields.
  split; [reflexivity|].
  split; [apply lookup_insert_eq|].
  split; [reflexivity|].
  split; [discriminate|].
  split; reflexivity.
Qed.

(** ** One connection at a time *)

(** The loop starts on a connection only when the one before is finished. *)
Lemma serve_forever_in_turn environ inherited c1 c2 rest now counts log :
  exists s1 s2 served,
    serve_forever environ inherited (c1 :: c2 :: rest) now counts log =
    s1 :: s2 :: served /\
    started s2 = Z.max (finished s1) (arrival c2) /\
    finished s1 <= started s2.
Proof.
  cbn [serve_forever]. eexists _, _, _. split; [reflexivity|].
  cbn [started finished]. split; [reflexivity|]. lia.
Qed.

(** A GET of a "/slow" path keeps the loop for 120 seconds. *)
Lemma slow_takes_120 environ inherited r counts log :
  rq_command r = "GET" ->
  str_in "/404" (rq_path r) = false ->
  str_in "/500" (rq_path r) = false ->
  str_in "/slow" (rq_path r) = true ->
  duration (wfile (handle environ inherited r counts log)) = 120.
Proof.
  intros Hget H404 H500 Hslow.
  rewrite handle_GET, do_GET_slow by assumption. reflexivity.
Qed.

(** C2, on the code: [ReusableTCPServer] is a plain [socketserver.TCPServer],
    so a connection that arrives one second after a GET of "/slow" is not
    looked at before the 120 seconds are over: its request for
    "/small-file" is started, and answered, at time 120, not at time 1. *)
Theorem slow_blocks_next_connection :
  let inherited := fixture_server startup_fixtures in
  let served :=
    serve_forever ∅ inherited
      [mkConnection 0 (GET "/slow"); mkConnection 1 (GET "/small-file")]
      0 ∅ [] in
  map (fun s => (started s, finished s, status_of inherited (wfile (final s))))
      served =
  [(0, 120, Some 200); (120, 120, Some 200)].
Proof. vm_compute. reflexivity. Qed.

(** * Further properties of the handler and the server *)

(** ** Every way a request can go *)

Lemma after_retry_path environ inherited path st :
  self_path (snd (after_retry environ inherited path st)) = self_path st.
Proof.
  destruct (str_in "/wrong-checksum" path) eqn:Hwc;
    [now rewrite after_retry_wrong_checksum|].
  destruct (str_in "/corrupted.zip" path) eqn:Hzip;
    [now rewrite after_retry_corrupted_zip|].
  destruct (str_in "/small-file" path) eqn:Hsmall;
    [now rewrite after_retry_small_file|].
  rewrite after_retry_static, call_inherited_run by assumption. reflexivity.
Qed.

(** The events of the checks below the retry block: one of four lists. *)
Lemma after_retry_events environ inherited path st :
  wfile st = [] ->
  let evs := wfile (snd (after_retry environ inherited path st)) in
  (str_in "/wrong-checksum" path = true /\
   evs = [EvSendResponse 200;
          EvSendHeader "Content-Type" "application/octet-stream";
          EvEndHeaders;
          EvWrite (bytes_mul (bytes_lit "wrong content ") 100000)]) \/
  (str_in "/wrong-checksum" path = false /\
   str_in "/corrupted.zip" path = true /\
   evs = [EvSendResponse 200;
          EvSendHeader "Content-Type" "application/zip";
          EvEndHeaders;
          EvWrite ([x50; x4b; x03; x04] ++ bytes_mul [x00] 100)]) \/
  (str_in "/wrong-checksum" path = false /\
   str_in "/corrupted.zip" path = false /\
   str_in "/small-file" path = true /\
   evs = [EvSendResponse 200;
          EvSendHeader "Content-Type" "application/octet-stream";
          EvEndHeaders;
          EvWrite (bytes_lit "too small")]) \/
  (str_in "/wrong-checksum" path = false /\
   str_in "/corrupted.zip" path = false /\
   str_in "/small-file" path = false /\
   evs = [EvSuper "do_GET" (self_path st)]).
Proof.
  intros Hw evs. subst evs.
  destruct (str_in "/wrong-checksum" path) eqn:Hwc.
  { left. rewrite after_retry_wrong_checksum by assumption. fields.
    rewrite Hw. auto. }
  destruct (str_in "/corrupted.zip" path) eqn:Hzip.
  { right. left. rewrite after_retry_corrupted_zip by assumption. fields.
    rewrite Hw. auto. }
  destruct (str_in "/small-file" path) eqn:Hsmall.
  { right. right. left. rewrite after_retry_small_file by assumption. fields.
    rewrite Hw. auto. }
  right. right. right.
  rewrite after_retry_static, call_inherited_run by assumption. fields.
  rewrite Hw. auto.
Qed.

(** The table and the path after one request. *)
Lemma handle_table environ inherited r counts log :
  request_counts (handle environ inherited r counts log) =
  if reaches_retry r
  then <[rq_path r := default 0 (counts !! rq_path r) + 1]> counts
  else counts.
Proof.
  unfold reaches_retry.
  destruct (String.eqb_spec (rq_command r) "GET") as [Hget|Hother]; cbn [andb].
  2:{ now rewrite handle_other. }
  destruct (str_in "/404" (rq_path r)) eqn:H404; cbn [negb andb].
  { now rewrite handle_GET, do_GET_404, send_error_run. }
  destruct (str_in "/500" (rq_path r)) eqn:H500; cbn [negb andb].
  { now rewrite handle_GET, do_GET_500, send_error_run. }
  destruct (str_in "/slow" (rq_path r)) eqn:Hslow; cbn [negb andb].
  { now rewrite handle_GET, do_GET_slow. }
  destruct (str_in "/fail-then-ok" (rq_path r)) eqn:Hfto.
  - destruct (Z.lt_ge_cases (default 0 (counts !! rq_path r) + 1) 3).
    + now rewrite handle_retry_fail.
    + rewrite handle_retry_pass by assumption. now rewrite after_retry_counts.
  - rewrite handle_GET, do_GET_past_slow by assumption. fields.
    rewrite fail_then_ok_skip by assumption. now rewrite after_retry_counts.
Qed.

Lemma handle_path environ inherited r counts log :
  self_path (handle environ inherited r counts log) =
  if reaches_retry r && (3 <=? default 0 (counts !! rq_path r) + 1)
  then str_or (str_replace "/fail-then-ok" "" (rq_path r)) "/"
  else rq_path r.
Proof.
  unfold reaches_retry.
  destruct (String.eqb_spec (rq_command r) "GET") as [Hget|Hother]; cbn [andb].
  2:{ now rewrite handle_other. }
  destruct (str_in "/404" (rq_path r)) eqn:H404; cbn [negb andb].
  { now rewrite handle_GET, do_GET_404, send_error_run. }
  destruct (str_in "/500" (rq_path r)) eqn:H500; cbn [negb andb].
  { now rewrite handle_GET, do_GET_500, send_error_run. }
  destruct (str_in "/slow" (rq_path r)) eqn:Hslow; cbn [negb andb].
  { now rewrite handle_GET, do_GET_slow. }
  destruct (str_in "/fail-then-ok" (rq_path r)) eqn:Hfto; cbn [andb].
  - destruct (Z.leb_spec 3 (default 0 (counts !! rq_path r) + 1)).
    + rewrite handle_retry_pass by assumption. now rewrite after_retry_path.
    + now rewrite handle_retry_fail.
  - rewrite handle_GET, do_GET_past_slow by assumption. fields.
    rewrite fail_then_ok_skip by assumption. now rewrite after_retry_path.
Qed.

(** The events of one request: the sleeping list exactly for the requests
    the "/slow" check answers, and else a list with no sleep and a single
    response. *)
Lemma handle_events environ inherited r counts log :
  let evs := wfile (handle environ inherited r counts log) in
  (is_slow r = true /\ evs = [EvSleep 120; EvSendResponse 200; EvEndHeaders]) \/
  (is_slow r = false /\
   ((exists code message, evs = [EvSendError code message]) \/
    (exists ctype data,
        evs = [EvSendResponse 200; EvSendHeader "Content-Type" ctype;
               EvEndHeaders; EvWrite data]) \/
    (exists method path, evs = [EvSuper method path]))).
Proof.
  intros evs. subst evs. unfold is_slow.
  destruct (String.eqb_spec (rq_command r) "GET") as [Hget|Hother]; cbn [andb].
  2:{ right. split; [reflexivity|]. right. right.
      rewrite handle_other by assumption. now eexists _, _. }
  destruct (str_in "/404" (rq_path r)) eqn:H404; cbn [negb andb].
  { right. split; [reflexivity|]. left.
    rewrite handle_GET, do_GET_404, send_error_run by assumption.
    now eexists _, _. }
  destruct (str_in "/500" (rq_path r)) eqn:H500; cbn [negb andb].
  { right. split; [reflexivity|]. left.
    rewrite handle_GET, do_GET_500, send_error_run by assumption.
    now eexists _, _. }
  destruct (str_in "/slow" (rq_path r)) eqn:Hslow.
  { left. now rewrite handle_GET, do_GET_slow. }
  right. split; [reflexivity|].
  assert (Hrest : forall st, wfile st = [] ->
    (exists ctype data,
        wfile (snd (after_retry environ inherited (rq_path r) st)) =
        [EvSendResponse 200; EvSendHeader "Content-Type" ctype;
         EvEndHeaders; EvWrite data]) \/
    (exists method path,
        wfile (snd (after_retry environ inherited (rq_path r) st)) =
        [EvSuper method path])).
  { intros st Hw.
    destruct (after_retry_events environ inherited (rq_path r) st Hw)
      as [(_ & E)|[(_ & _ & E)|[(_ & _ & _ & E)|(_ & _ & _ & E)]]];
      rewrite E; [left|left|left|right]; now eexists _, _. }
  destruct (str_in "/fail-then-ok" (rq_path r)) eqn:Hfto.
  - destruct (Z.lt_ge_cases (default 0 (counts !! rq_path r) + 1) 3).
    + left. rewrite handle_retry_fail by assumption. now eexists _, _.
    + right. rewrite handle_retry_pass by assumption. now apply Hrest.
  - right. rewrite handle_GET, do_GET_past_slow by assumption. fields.
    rewrite fail_then_ok_skip by assumption. now apply Hrest.
Qed.

Lemma reaches_retry_true r :
  reaches_retry r = true <->
  rq_command r = "GET" /\
  str_in "/404" (rq_path r) = false /\
  str_in "/500" (rq_path r) = false /\
  str_in "/slow" (rq_path r) = false /\
  str_in "/fail-then-ok" (rq_path r) = true.
Proof.
  unfold reaches_retry.
  rewrite !andb_true_iff, !negb_true_iff, String.eqb_eq. tauto.
Qed.

Lemma is_slow_true r :
  is_slow r = true <->
  rq_command r = "GET" /\
  str_in "/404" (rq_path r) = false /\
  str_in "/500" (rq_path r) = false /\
  str_in "/slow" (rq_path r) = true.
Proof.
  unfold is_slow.
  rewrite !andb_true_iff, !negb_true_iff, String.eqb_eq. tauto.
Qed.

(** ** The rows, one by one *)

Lemma path_500_response_witness :
  wfile (handle ∅ (fixture_server startup_fixtures)
           (GET "/500/fail-then-ok/slow") ∅ []) =
    [EvSendError 500 "Internal Server Error"] /\
  request_counts (handle ∅ (fixture_server startup_fixtures)
                    (GET "/500/fail-then-ok/slow") ∅ []) = ∅.
Proof.
  apply (path_500_response ∅ (fixture_server startup_fixtures)
           (GET "/500/fail-then-ok/slow") ∅ []); reflexivity.
Defined.

Lemma slow_response_witness :
  wfile (handle ∅ (fixture_server startup_fixtures)
           (GET "/slow/mock_binary") ∅ []) =
    [EvSleep 120; EvSendResponse 200; EvEndHeaders] /\
  request_counts (handle ∅ (fixture_server startup_fixtures)
                    (GET "/slow/mock_binary") ∅ []) = ∅.
Proof.
  apply (slow_response ∅ (fixture_server startup_fixtures)
           (GET "/slow/mock_binary") ∅ []); reflexivity.
Defined.

Lemma small_file_response_witness :
  let st := handle ∅ (fixture_server startup_fixtures)
              (GET "/small-file") ∅ [] in
  wfile st =
    [EvSendResponse 200;
     EvSendHeader "Content-Type" "application/octet-stream";
     EvEndHeaders;
     EvWrite (bytes_lit "too small")] /\
  status_of (fixture_server startup_fixtures) (wfile st) = Some 200 /\
  content_type_of (wfile st) = Some "application/octet-stream" /\
  body_of (wfile st) = bytes_lit "too small" /\
  length (body_of (wfile st)) = 9%nat /\
  request_counts st = ∅.
Proof.
  apply (small_file_response ∅ (fixture_server startup_fixtures)
           (GET "/small-file") ∅ []); reflexivity.
Defined.

(** X4: a GET whose path contains none of the scenario substrings goes to
    the inherited file server with the path untouched: that call is all
    that is done on the connection, the counters stay as they are and the
    log grows by the file server's own calls, filtered by DEBUG. *)
Theorem plain_path_delegated environ inherited (r : Request)
    (counts : gmap string Z) (log : list LogCall) :
  rq_command r = "GET" ->
  str_in "/404" (rq_path r) = false ->
  str_in "/500" (rq_path r) = false ->
  str_in "/slow" (rq_path r) = false ->
  str_in "/fail-then-ok" (rq_path r) = false ->
  str_in "/wrong-checksum" (rq_path r) = false ->
  str_in "/corrupted.zip" (rq_path r) = false ->
  str_in "/small-file" (rq_path r) = false ->
  handle environ inherited r counts log =
  mkState counts "GET" (rq_path r) (requestline r)
    [EvSuper "do_GET" (rq_path r)]
    (log ++ logged environ (sr_log (inherited "do_GET" (rq_path r)))).
Proof.
  intros Hget H404 H500 Hslow Hfto Hwc Hzip Hsmall.
  rewrite handle_GET by assumption.
  rewrite do_GET_past_slow by assumption. fields.
  rewrite fail_then_ok_skip by assumption.
  rewrite after_retry_static, call_inherited_run by assumption.
  reflexivity.
Qed.

Lemma plain_path_delegated_witness :
  handle ∅ (fixture_server startup_fixtures) (GET "/mock_binary") ∅ [] =
  mkState ∅ "GET" "/mock_binary" "GET /mock_binary HTTP/1.1"
    [EvSuper "do_GET" "/mock_binary"] [].
Proof.
  rewrite (plain_path_delegated ∅ (fixture_server startup_fixtures)
             (GET "/mock_binary") ∅ []) by reflexivity.
  reflexivity.
Defined.

(** X5: the first two requests that get to the retry block with a path are
    refused whatever else the path contains: [send_error(503, ...)] is all
    that is sent, also for a path with "/wrong-checksum" or "/small-file" in
    it, [self.path] is not rewritten and the path's count goes up by one. *)
Theorem retry_refused environ inherited (r : Request)
    (counts : gmap string Z) (log : list LogCall) :
  reaches_retry r = true ->
  default 0 (counts !! rq_path r) < 2 ->
  let st := handle environ inherited r counts log in
  wfile st = [EvSendError 503 "Service Temporarily Unavailable"] /\
  status_of inherited (wfile st) = Some 503 /\
  self_path st = rq_path r /\
  request_counts st =
    <[rq_path r := default 0 (counts !! rq_path r) + 1]> counts.
Proof.
  intros Hr Hc st. subst st.
  apply reaches_retry_true in Hr as (Hget & H404 & H500 & Hslow & Hfto).
  rewrite handle_retry_fail by (assumption || lia).
  repeat split; reflexivity.
Qed.

Lemma retry_refused_witness :
  let r := GET "/fail-then-ok/wrong-checksum" in
  let counts : gmap string Z := {[ "/fail-then-ok/wrong-checksum" := 1 ]} in
  let st := handle ∅ (fixture_server startup_fixtures) r counts [] in
  wfile st = [EvSendError 503 "Service Temporarily Unavailable"] /\
  status_of (fixture_server startup_fixtures) (wfile st) = Some 503 /\
  self_path st = rq_path r /\
  request_counts st =
    <[rq_path r := default 0 (counts !! rq_path r) + 1]> counts.
Proof.
  apply (retry_refused ∅ (fixture_server startup_fixtures)
           (GET "/fail-then-ok/wrong-checksum")
           {[ "/fail-then-ok/wrong-checksum" := 1 ]} []); reflexivity.
Defined.

(** X6: from the third request on, a retry path that also contains
    "/wrong-checksum", "/corrupted.zip" or "/small-file" gets that canned
    answer (tested on the original path, in this order), while [self.path]
    is rewritten and the count goes up all the same. *)
Theorem retry_pass_canned environ inherited (r : Request)
    (counts : gmap string Z) (log : list LogCall) :
  reaches_retry r = true ->
  2 <= default 0 (counts !! rq_path r) ->
  str_in "/wrong-checksum" (rq_path r) = true \/
  str_in "/corrupted.zip" (rq_path r) = true \/
  str_in "/small-file" (rq_path r) = true ->
  let st := handle environ inherited r counts log in
  (exists data,
      wfile st =
      [EvSendResponse 200;
       EvSendHeader "Content-Type"
         (if str_in "/wrong-checksum" (rq_path r)
          then "application/octet-stream"
          else if str_in "/corrupted.zip" (rq_path r)
               then "application/zip" else "application/octet-stream");
       EvEndHeaders; EvWrite data] /\
      data =
      if str_in "/wrong-checksum" (rq_path r)
      then bytes_mul (bytes_lit "wrong content ") 100000
      else if str_in "/corrupted.zip" (rq_path r)
           then ([x50; x4b; x03; x04] ++ bytes_mul [x00] 100)%list
           else bytes_lit "too small") /\
  self_path st = str_or (str_replace "/fail-then-ok" "" (rq_path r)) "/" /\
  request_counts st =
    <[rq_path r := default 0 (counts !! rq_path r) + 1]> counts.
Proof.
  intros Hr Hc Hcanned st. subst st.
  apply reaches_retry_true in Hr as (Hget & H404 & H500 & Hslow & Hfto).
  rewrite handle_retry_pass by (assumption || lia).
  rewrite after_retry_path, after_retry_counts. fields.
  split; [|split; reflexivity].
  match goal with |- context [after_retry _ _ _ ?s] =>
    destruct (after_retry_events environ inherited (rq_path r) s eq_refl)
      as [(Hwc & E)|[(Hwc & Hzip & E)|[(Hwc & Hzip & Hsmall & E)
                                      |(Hwc & Hzip & Hsmall & E)]]]
  end.
  - rewrite E, Hwc. eexists. split; reflexivity.
  - rewrite E, Hwc, Hzip. eexists. split; reflexivity.
  - rewrite E, Hwc, Hzip. eexists. split; reflexivity.
  - destruct Hcanned as [?|[?|?]]; congruence.
Qed.

Lemma retry_pass_canned_witness :
  let r := GET "/fail-then-ok/small-file" in
  let counts : gmap string Z := {[ "/fail-then-ok/small-file" := 2 ]} in
  let st := handle ∅ (fixture_server startup_fixtures) r counts [] in
  body_of (wfile st) = bytes_lit "too small" /\
  self_path st = "/small-file" /\
  request_counts st !! "/fail-then-ok/small-file" = Some 3.
Proof.
  pose proof (retry_pass_canned ∅ (fixture_server startup_fixtures)
                (GET "/fail-then-ok/small-file")
                {[ "/fail-then-ok/small-file" := 2 ]} []) as H.
  destruct H as ((data & Hw & Hd) & Hp & Hc); try reflexivity.
  { right. right. reflexivity. }
  cbv zeta. split; [rewrite Hw, Hd; reflexivity|].
  split; [rewrite Hp; reflexivity|].
  rewrite Hc. reflexivity.
Defined.

(** ** The counter table over a whole run *)

Lemma retry_requests_nonneg P conns : 0 <= retry_requests P conns.
Proof.
  induction conns as [|c conns IH]; cbn [retry_requests]; [lia|].
  destruct (reaches_retry (request c) && String.eqb (rq_path (request c)) P);
    lia.
Qed.

Lemma serve_cons environ inherited c rest now counts log :
  serve_forever environ inherited (c :: rest) now counts log =
  mkServed (Z.max now (arrival c))
    (Z.max now (arrival c) +
     duration (wfile (handle environ inherited (request c) counts log)))
    (handle environ inherited (request c) counts log)
  :: serve_forever environ inherited rest
       (Z.max now (arrival c) +
        duration (wfile (handle environ inherited (request c) counts log)))
       (request_counts (handle environ inherited (request c) counts log))
       (stderr (handle environ inherited (request c) counts log)).
Proof. reflexivity. Qed.

(** The entry of every path after a run: its old count plus the number of
    requests that got to the retry block with exactly that path. *)
Lemma run_table_lookup environ inherited P conns :
  forall now counts log,
    counts_after counts (serve_forever environ inherited conns now counts log)
      !! P =
    if retry_requests P conns =? 0 then counts !! P
    else Some (default 0 (counts !! P) + retry_requests P conns).
Proof.
  induction conns as [|c conns IH]; intros now counts log; [reflexivity|].
  rewrite serve_cons, counts_after_cons. cbn [final retry_requests].
  rewrite IH, handle_table.
  pose proof (retry_requests_nonneg P conns) as Hn.
  destruct (reaches_retry (request c)) eqn:Hr; cbn [andb].
  - destruct (String.eqb_spec (rq_path (request c)) P) as [->|Hne].
    + rewrite lookup_insert_eq. cbn [default].
      destruct (Z.eqb_spec (retry_requests P conns) 0) as [E|E];
        destruct (Z.eqb_spec (1 + retry_requests P conns) 0); try lia.
      * apply (f_equal Some). lia.
      * apply (f_equal Some). unfold id. lia.
    + rewrite lookup_insert_ne by assumption. reflexivity.
  - destruct (String.eqb (rq_path (request c)) P); reflexivity.
Qed.

Lemma retry_requests_pos P conns :
  0 < retry_requests P conns ->
  exists c, In c conns /\ reaches_retry (request c) = true /\
            rq_path (request c) = P.
Proof.
  induction conns as [|c conns IH]; cbn [retry_requests]; [lia|].
  destruct (reaches_retry (request c)) eqn:Hr; cbn [andb].
  - destruct (String.eqb_spec (rq_path (request c)) P) as [E|E].
    + intros _. exists c. split; [now left|auto].
    + intros H. destruct IH as (c' & Hin & H'); [lia|].
      exists c'. split; [now right|exact H'].
  - intros H. destruct IH as (c' & Hin & H'); [lia|].
    exists c'. split; [now right|exact H'].
Qed.

(** X7: the counter table after any run of connections, whatever their
    methods, paths and order: the entry of a path [P] is its old count plus
    the number of GET requests that reached the retry check with exactly the
    path [P]; a path no such request carried keeps its entry, or its
    absence; and a run without any such request leaves the whole table as
    it was. *)
Theorem table_after_run environ inherited (conns : list Connection)
    (now : Z) (counts : gmap string Z) (log : list LogCall) :
  let counts' :=
    counts_after counts
      (serve_forever environ inherited conns now counts log) in
  (forall P,
      counts' !! P =
      if retry_requests P conns =? 0 then counts !! P
      else Some (default 0 (counts !! P) + retry_requests P conns)) /\
  (Forall (fun c => reaches_retry (request c) = false) conns ->
   counts' = counts).
Proof.
  intros counts'. split.
  - intros P. apply run_table_lookup.
  - intros Hnone. apply map_eq. intros P. subst counts'.
    rewrite run_table_lookup.
    destruct (Z.eqb_spec (retry_requests P conns) 0) as [E|E]; [reflexivity|].
    pose proof (retry_requests_nonneg P conns).
    destruct (retry_requests_pos P conns) as (c & Hin & Hr & _); [lia|].
    rewrite List.Forall_forall in Hnone. rewrite (Hnone c Hin) in Hr.
    discriminate Hr.
Qed.

(** X8: entries are never removed and never decrease: after any run, a key
    present before is present with a count at least as large. *)
Theorem table_only_grows environ inherited (conns : list Connection)
    (now : Z) (counts : gmap string Z) (log : list LogCall) (k : string)
    (v : Z) :
  counts !! k = Some v ->
  exists v',
    counts_after counts
      (serve_forever environ inherited conns now counts log) !! k = Some v' /\
    v <= v'.
Proof.
  intros Hk. rewrite run_table_lookup, Hk. cbn [default]. unfold id.
  pose proof (retry_requests_nonneg k conns).
  destruct (retry_requests k conns =? 0).
  - exists v. split; [reflexivity|lia].
  - eexists. split; [reflexivity|lia].
Qed.

Lemma table_only_grows_witness :
  exists v',
    counts_after {[ "/fail-then-ok/a" := 5 ]}
      (serve_forever ∅ (fixture_server startup_fixtures)
         [mkConnection 0 (GET "/fail-then-ok/a");
          mkConnection 0 (GET "/404/fail-then-ok/a");
          mkConnection 0 (GET "/fail-then-ok/b")]
         0 {[ "/fail-then-ok/a" := 5 ]} [])
      !! "/fail-then-ok/a" = Some v' /\
    5 <= v'.
Proof.
  apply (table_only_grows ∅ (fixture_server startup_fixtures)
           [mkConnection 0 (GET "/fail-then-ok/a");
            mkConnection 0 (GET "/404/fail-then-ok/a");
            mkConnection 0 (GET "/fail-then-ok/b")]
           0 {[ "/fail-then-ok/a" := 5 ]} [] "/fail-then-ok/a" 5).
  apply lookup_singleton_eq.
Defined.

(** X9: an invariant of the table.  If every entry is at least 1 and keyed
    by a path that contains "/fail-then-ok" and none of "/404", "/500",
    "/slow" (as in the empty table the server starts with), the same holds
    after any run: no other path ever gets an entry, and no entry is 0. *)
Theorem table_invariant environ inherited (conns : list Connection)
    (now : Z) (counts : gmap string Z) (log : list LogCall) :
  (forall k v, counts !! k = Some v ->
     1 <= v /\ reaches_retry (GET k) = true) ->
  forall k v,
    counts_after counts
      (serve_forever environ inherited conns now counts log) !! k = Some v ->
    1 <= v /\ reaches_retry (GET k) = true.
Proof.
  intros Hinv k v. rewrite run_table_lookup.
  pose proof (retry_requests_nonneg k conns).
  destruct (Z.eqb_spec (retry_requests k conns) 0) as [E|E].
  - apply Hinv.
  - intros [= <-].
    destruct (retry_requests_pos k conns) as (c & _ & Hr & Hp); [lia|].
    split.
    + destruct (counts !! k) as [v0|] eqn:Hk; cbn [default]; unfold id; [|lia].
      destruct (Hinv k v0 Hk). lia.
    + apply reaches_retry_true in Hr as (_ & H404 & H500 & Hslow & Hfto).
      apply reaches_retry_true. cbn [rq_command rq_path GET].
      rewrite <- Hp. auto.
Qed.

Lemma table_invariant_witness :
  counts_after ∅
    (serve_forever ∅ (fixture_server startup_fixtures)
       [mkConnection 0 (GET "/fail-then-ok/a");
        mkConnection 1 (mkRequest "HEAD" "/fail-then-ok/h" "HTTP/1.1");
        mkConnection 2 (GET "/slow/fail-then-ok")]
       0 ∅ []) = {[ "/fail-then-ok/a" := 1 ]} /\
  1 <= 1 /\ reaches_retry (GET "/fail-then-ok/a") = true.
Proof.
  split; [reflexivity|].
  apply (table_invariant ∅ (fixture_server startup_fixtures)
           [mkConnection 0 (GET "/fail-then-ok/a");
            mkConnection 1 (mkRequest "HEAD" "/fail-then-ok/h" "HTTP/1.1");
            mkConnection 2 (GET "/slow/fail-then-ok")]
           0 ∅ []) with (k := "/fail-then-ok/a") (v := 1).
  - intros k v H. rewrite lookup_empty in H. discriminate H.
  - reflexivity.
Defined.

Lemma table_after_run_witness :
  let conns :=
    [mkConnection 0 (GET "/fail-then-ok/a");
     mkConnection 1 (GET "/fail-then-ok/b");
     mkConnection 2 (GET "/500/fail-then-ok/a");
     mkConnection 3 (GET "/fail-then-ok/a")] in
  let counts' :=
    counts_after ∅
      (serve_forever ∅ (fixture_server startup_fixtures) conns 0 ∅ []) in
  counts' !! "/fail-then-ok/a" = Some 2 /\
  counts' !! "/fail-then-ok/b" = Some 1 /\
  counts' !! "/500/fail-then-ok/a" = None.
Proof.
  pose proof (table_after_run ∅ (fixture_server startup_fixtures)
                [mkConnection 0 (GET "/fail-then-ok/a");
                 mkConnection 1 (GET "/fail-then-ok/b");
                 mkConnection 2 (GET "/500/fail-then-ok/a");
                 mkConnection 3 (GET "/fail-then-ok/a")] 0 ∅ [])
    as (H & _).
  cbv zeta. rewrite !H. repeat split; reflexivity.
Defined.

(** ** One response, and sleep only for "/slow" *)

Lemma handle_duration environ inherited r counts log :
  duration (wfile (handle environ inherited r counts log)) =
  if is_slow r then 120 else 0.
Proof.
  destruct (handle_events environ inherited r counts log)
    as [(Hs & E)|(Hs & [(c & m & E)|[(ct & d & E)|(m & p & E)]])];
    rewrite E, Hs; reflexivity.
Qed.

(** X10: every request gets exactly one response.  Whatever the method,
    the path and the counters, exactly one of the events of the handling
    sends a status (a [send_error], a [send_response] or the inherited
    method), so a status is always defined. *)
Theorem one_response_per_request environ inherited (r : Request)
    (counts : gmap string Z) (log : list LogCall) :
  let evs := wfile (handle environ inherited r counts log) in
  length (List.filter sends_status evs) = 1%nat /\
  exists code, status_of inherited evs = Some code.
Proof.
  intros evs. subst evs.
  destruct (handle_events environ inherited r counts log)
    as [(Hs & E)|(Hs & [(c & m & E)|[(ct & d & E)|(m & p & E)]])];
    rewrite E; (split; [reflexivity|eexists; reflexivity]).
Qed.

(** X11: the handler sleeps only for "/slow".  The time a request keeps
    the server is 120 seconds when it is a GET whose path contains "/slow"
    and neither "/404" nor "/500", and 0 otherwise; no other request has a
    sleep among its events. *)
Theorem sleeps_only_when_slow environ inherited (r : Request)
    (counts : gmap string Z) (log : list LogCall) :
  let evs := wfile (handle environ inherited r counts log) in
  duration evs = (if is_slow r then 120 else 0) /\
  (forall seconds, In (EvSleep seconds) evs ->
     seconds = 120 /\ is_slow r = true).
Proof.
  intros evs. subst evs. split; [apply handle_duration|].
  intros seconds.
  destruct (handle_events environ inherited r counts log)
    as [(Hs & E)|(Hs & [(c & m & E)|[(ct & d & E)|(m & p & E)]])];
    rewrite E; cbn [In]; intros H;
    repeat (destruct H as [H|H]; try discriminate H); try contradiction.
  injection H as <-. auto.
Qed.

(** ** The schedule of the accept loop *)

Lemma duration_nonneg environ inherited r counts log :
  0 <= duration (wfile (handle environ inherited r counts log)).
Proof. rewrite handle_duration. destruct (is_slow r); lia. Qed.

Lemma serve_length environ inherited conns :
  forall now counts log,
    length (serve_forever environ inherited conns now counts log) =
    length conns.
Proof.
  induction conns as [|c conns IH]; intros now counts log; [reflexivity|].
  rewrite serve_cons. cbn [length]. now rewrite IH.
Qed.

(** The [i]-th connection is handled on the table the connections before
    it have left, not before it arrives and not before the loop is free. *)
Lemma serve_lookup environ inherited conns :
  forall i c now counts log,
    conns !! i = Some c ->
    exists start log',
      serve_forever environ inherited conns now counts log !! i =
      Some (mkServed start
              (start + duration (wfile
                 (handle environ inherited (request c)
                    (counts_after counts
                       (serve_forever environ inherited (take i conns)
                          now counts log)) log')))
              (handle environ inherited (request c)
                 (counts_after counts
                    (serve_forever environ inherited (take i conns)
                       now counts log)) log')) /\
      now <= start /\ arrival c <= start.
Proof.
  induction conns as [|c0 conns IH]; intros i c now counts log Hi;
    [discriminate Hi|].
  destruct i as [|i].
  - injection Hi as <-. rewrite serve_cons. eexists _, _.
    split; [reflexivity|]. lia.
  - cbn [lookup list_lookup] in Hi. rewrite serve_cons.
    cbn [take]. rewrite serve_cons, counts_after_cons. cbn [final].
    edestruct (IH i c) as (start & log' & E & Hnow & Harr); [exact Hi|].
    exists start, log'. split; [exact E|].
    pose proof (duration_nonneg environ inherited (request c0) counts log).
    lia.
Qed.

(** X12: the answer to a retry request does not depend on what else the
    server is asked in between.  In any run of connections that starts with
    an empty table, a request that gets to the retry block is refused with
    503 exactly when fewer than two earlier requests of the run got there
    with the same path. *)
Theorem retry_answer_any_order environ inherited (conns : list Connection)
    (i : nat) (c : Connection) (s : Served) (now : Z) (log : list LogCall) :
  conns !! i = Some c ->
  reaches_retry (request c) = true ->
  serve_forever environ inherited conns now ∅ log !! i = Some s ->
  wfile (final s) = [EvSendError 503 "Service Temporarily Unavailable"] <->
  retry_requests (rq_path (request c)) (take i conns) < 2.
Proof.
  intros Hi Hr Hs.
  destruct (serve_lookup environ inherited conns i c now ∅ log Hi)
    as (start & log' & E & _ & _).
  rewrite Hs in E. injection E as ->. cbn [final].
  pose proof (retry_requests_nonneg (rq_path (request c)) (take i conns)) as Hn.
  assert (Hc : default 0
                 (counts_after ∅
                    (serve_forever environ inherited (take i conns) now ∅ log)
                    !! rq_path (request c)) =
               retry_requests (rq_path (request c)) (take i conns)).
  { rewrite run_table_lookup, lookup_empty.
    destruct (Z.eqb_spec (retry_requests (rq_path (request c)) (take i conns)) 0)
      as [E|E]; cbn [default]; unfold id; lia. }
  apply reaches_retry_true in Hr as (Hget & H404 & H500 & Hslow & Hfto).
  split.
  - intros Hw.
    destruct (Z.lt_ge_cases
                (retry_requests (rq_path (request c)) (take i conns)) 2)
      as [Hlt|Hge]; [exact Hlt|exfalso].
    rewrite handle_retry_pass in Hw by (assumption || lia).
    match type of Hw with context [after_retry _ _ _ ?st] =>
      destruct (after_retry_events environ inherited (rq_path (request c))
                  st eq_refl)
        as [(_ & E)|[(_ & _ & E)|[(_ & _ & _ & E)|(_ & _ & _ & E)]]]
    end; rewrite E in Hw; discriminate Hw.
  - intros Hlt. now rewrite handle_retry_fail by (assumption || lia).
Qed.

Lemma retry_answer_any_order_witness :
  let conns :=
    [mkConnection 0 (GET "/fail-then-ok/a");
     mkConnection 1 (GET "/fail-then-ok/b");
     mkConnection 2 (GET "/fail-then-ok/a");
     mkConnection 3 (GET "/mock_binary");
     mkConnection 4 (GET "/fail-then-ok/a")] in
  exists s,
    serve_forever ∅ (fixture_server startup_fixtures) conns 0 ∅ [] !! 4%nat =
      Some s /\
    retry_requests "/fail-then-ok/a" (take 4 conns) = 2 /\
    wfile (final s) <> [EvSendError 503 "Service Temporarily Unavailable"].
Proof.
  intros conns. eexists. split; [reflexivity|]. split; [reflexivity|].
  intros Hw.
  apply (retry_answer_any_order ∅ (fixture_server startup_fixtures)
           conns 4 (mkConnection 4 (GET "/fail-then-ok/a")) _ 0 []) in Hw;
    [|reflexivity|reflexivity|reflexivity].
  vm_compute in Hw. discriminate Hw.
Defined.

Lemma serve_started_ge environ inherited conns :
  forall j s now counts log,
    serve_forever environ inherited conns now counts log !! j = Some s ->
    now <= started s.
Proof.
  induction conns as [|c conns IH]; intros j s now counts log Hj;
    [discriminate Hj|].
  rewrite serve_cons in Hj. destruct j as [|j].
  - injection Hj as <-. cbn [started]. lia.
  - cbn [lookup list_lookup] in Hj. apply IH in Hj.
    pose proof (duration_nonneg environ inherited (request c) counts log).
    lia.
Qed.

Lemma serve_adjacent environ inherited conns :
  forall i c s1 s2 now counts log,
    serve_forever environ inherited conns now counts log !! i = Some s1 ->
    conns !! S i = Some c ->
    serve_forever environ inherited conns now counts log !! S i = Some s2 ->
    started s2 = Z.max (finished s1) (arrival c).
Proof.
  induction conns as [|c0 conns IH]; intros i c s1 s2 now counts log H1 Hc H2;
    [discriminate Hc|].
  rewrite serve_cons in H1, H2. destruct i as [|i].
  - injection H1 as <-. cbn [finished].
    cbn [lookup list_lookup] in Hc, H2.
    destruct conns as [|c1 conns]; [discriminate Hc|].
    injection Hc as ->. rewrite serve_cons in H2. injection H2 as <-.
    reflexivity.
  - cbn [lookup list_lookup] in H1, Hc, H2. now apply (IH i c s1 s2) in H2.
Qed.

(** X13: sleeping adds up.  The loop is busy 120 seconds for each request
    the "/slow" check answers, one after the other: a connection is not
    finished before 120 seconds times the number of such requests among it
    and the connections before it have passed since the loop started. *)
Theorem slow_requests_add_up environ inherited (conns : list Connection) :
  forall (i : nat) (s : Served) (now : Z) (counts : gmap string Z)
         (log : list LogCall),
    serve_forever environ inherited conns now counts log !! i = Some s ->
    now + 120 * slow_requests (take (S i) conns) <= finished s.
Proof.
  induction conns as [|c conns IH]; intros i s now counts log Hs;
    [discriminate Hs|].
  rewrite serve_cons in Hs. rewrite firstn_cons. cbn [slow_requests].
  pose proof (handle_duration environ inherited (request c) counts log) as Hd.
  destruct i as [|i].
  - injection Hs as <-. cbn [finished]. rewrite Hd, take_0.
    cbn [slow_requests]. destruct (is_slow (request c)); lia.
  - cbn [lookup list_lookup] in Hs. apply IH in Hs. rewrite Hd in Hs.
    destruct (is_slow (request c)); lia.
Qed.

Lemma slow_requests_add_up_witness :
  let conns :=
    [mkConnection 0 (GET "/slow/a"); mkConnection 0 (GET "/small-file");
     mkConnection 0 (GET "/slow/b")] in
  exists s,
    serve_forever ∅ (fixture_server startup_fixtures) conns 0 ∅ [] !! 2%nat =
      Some s /\
    slow_requests (take 3 conns) = 2 /\
    0 + 120 * slow_requests (take 3 conns) <= finished s /\
    finished s = 240.
Proof.
  intros conns. eexists. split; [reflexivity|]. split; [reflexivity|].
  split; [|reflexivity].
  apply (slow_requests_add_up ∅ (fixture_server startup_fixtures) conns
           2 _ 0 ∅ []).
  reflexivity.
Defined.

(** X14: a "/slow" request holds up every connection behind it, not only
    the next one: whatever they ask for and whenever they arrive, none of
    them is started before 120 seconds after the slow request was. *)
Theorem slow_delays_later environ inherited (conns : list Connection) :
  forall (i j : nat) (c : Connection) (s1 s2 : Served) (now : Z)
         (counts : gmap string Z) (log : list LogCall),
    conns !! i = Some c ->
    is_slow (request c) = true ->
    serve_forever environ inherited conns now counts log !! i = Some s1 ->
    serve_forever environ inherited conns now counts log !! j = Some s2 ->
    (i < j)%nat ->
    started s1 + 120 <= started s2.
Proof.
  induction conns as [|c0 conns IH];
    intros i j c s1 s2 now counts log Hc Hslow H1 H2 Hij;
    [discriminate Hc|].
  rewrite serve_cons in H1, H2.
  destruct j as [|j]; [lia|]. cbn [lookup list_lookup] in H2.
  destruct i as [|i].
  - injection Hc as ->. injection H1 as <-. cbn [started].
    apply serve_started_ge in H2.
    rewrite handle_duration, Hslow in H2. exact H2.
  - cbn [lookup list_lookup] in Hc, H1.
    apply (IH i j c s1 s2 _ _ _ Hc Hslow H1 H2). lia.
Qed.

Lemma slow_delays_later_witness :
  let served :=
    serve_forever ∅ (fixture_server startup_fixtures)
      [mkConnection 0 (GET "/slow"); mkConnection 1 (GET "/404");
       mkConnection 2 (GET "/small-file")] 0 ∅ [] in
  exists s1 s2,
    served !! 0%nat = Some s1 /\ served !! 2%nat = Some s2 /\
    started s1 + 120 <= started s2.
Proof.
  intros served. eexists _, _.
  split; [reflexivity|]. split; [reflexivity|].
  apply (slow_delays_later ∅ (fixture_server startup_fixtures)
           [mkConnection 0 (GET "/slow"); mkConnection 1 (GET "/404");
            mkConnection 2 (GET "/small-file")]
           0 2 (mkConnection 0 (GET "/slow")) _ _ 0 ∅ []);
    first [reflexivity|lia].
Defined.

(** ** The log over a whole run *)

Lemma handle_log environ inherited r counts log :
  exists calls,
    stderr (handle environ inherited r counts log) =
    (log ++ logged environ calls)%list.
Proof.
  destruct (handle_shape inherited r (default 0 (counts !! rq_path r)))
    as (bumped & path' & evs & calls & Hrun & _).
  exists calls. now rewrite Hrun.
Qed.

Lemma log_after_cons log s l :
  log_after log (s :: l) = log_after (stderr (final s)) l.
Proof. reflexivity. Qed.

Lemma run_log environ inherited conns :
  forall now counts log,
    exists calls,
      log_after log (serve_forever environ inherited conns now counts log) =
      (log ++ logged environ calls)%list.
Proof.
  induction conns as [|c conns IH]; intros now counts log.
  - exists []. unfold logged. cbn.
    destruct (debug_enabled environ); now rewrite app_nil_r.
  - rewrite serve_cons, log_after_cons. cbn [final].
    destruct (handle_log environ inherited (request c) counts log)
      as (calls1 & E1).
    edestruct IH as (calls2 & E2). rewrite E2, E1.
    exists (calls1 ++ calls2)%list.
    now rewrite logged_app, app_assoc.
Qed.

(** X15: the log is only ever appended to, and with DEBUG unset or empty a
    whole run of connections, whatever they ask for, leaves it exactly as
    it was. *)
Theorem run_log_quiet environ inherited (conns : list Connection) (now : Z)
    (counts : gmap string Z) (log : list LogCall) :
  let log' :=
    log_after log (serve_forever environ inherited conns now counts log) in
  (exists more, log' = (log ++ more)%list) /\
  (debug_enabled environ = false -> log' = log).
Proof.
  intros log'. subst log'.
  destruct (run_log environ inherited conns now counts log) as (calls & E).
  rewrite E. split.
  - now eexists.
  - intros Hoff. unfold logged. rewrite Hoff. apply app_nil_r.
Qed.

Lemma run_log_quiet_witness :
  let conns :=
    [mkConnection 0 (GET "/404"); mkConnection 1 (GET "/mock_binary");
     mkConnection 2 (GET "/fail-then-ok/x")] in
  log_after [] (serve_forever {[ "DEBUG" := "" ]}
                  (fixture_server startup_fixtures) conns 0 ∅ []) = [] /\
  length (log_after [] (serve_forever {[ "DEBUG" := "yes" ]}
                          (fixture_server startup_fixtures) conns 0 ∅ [])) =
  5%nat.
Proof.
  split; [|reflexivity].
  apply (run_log_quiet {[ "DEBUG" := "" ]} (fixture_server startup_fixtures)
           [mkConnection 0 (GET "/404"); mkConnection 1 (GET "/mock_binary");
            mkConnection 2 (GET "/fail-then-ok/x")] 0 ∅ []).
  reflexivity.
Defined.

(** ** Startup, once more *)



(** ** The path that is served *)

(** X17: [self.path] is rewritten by the retry block alone, from the third
    request on.  For every other request (another method, a path without
    "/fail-then-ok" or caught by an earlier check, a first or second try)
    the path handed on is the one that was asked for; and a rewritten path
    is never empty. *)
Theorem path_rewritten_only_on_pass environ inherited (r : Request)
    (counts : gmap string Z) (log : list LogCall) :
  let st := handle environ inherited r counts log in
  (reaches_retry r = false \/ default 0 (counts !! rq_path r) < 2 ->
   self_path st = rq_path r) /\
  (reaches_retry r = true -> 2 <= default 0 (counts !! rq_path r) ->
   self_path st = str_or (str_replace "/fail-then-ok" "" (rq_path r)) "/" /\
   self_path st <> "").
Proof.
  intros st. subst st. rewrite handle_path. split.
  - intros [Hr|Hc].
    + now rewrite Hr.
    + destruct (Z.leb_spec 3 (default 0 (counts !! rq_path r) + 1)); [lia|].
      now rewrite andb_false_r.
  - intros Hr Hc. rewrite Hr.
    destruct (Z.leb_spec 3 (default 0 (counts !! rq_path r) + 1)); [|lia].
    cbn [andb]. split; [reflexivity|].
    destruct (str_replace "/fail-then-ok" "" (rq_path r)); discriminate.
Qed.

Lemma path_rewritten_only_on_pass_witness :
  self_path (handle ∅ (fixture_server startup_fixtures)
               (GET "/fail-then-ok") {[ "/fail-then-ok" := 1 ]} []) =
    "/fail-then-ok" /\
  self_path (handle ∅ (fixture_server startup_fixtures)
               (GET "/fail-then-ok") {[ "/fail-then-ok" := 2 ]} []) = "/".
Proof.
  destruct (path_rewritten_only_on_pass ∅ (fixture_server startup_fixtures)
              (GET "/fail-then-ok") {[ "/fail-then-ok" := 1 ]} [])
    as (Hkeep & _).
  destruct (path_rewritten_only_on_pass ∅ (fixture_server startup_fixtures)
              (GET "/fail-then-ok") {[ "/fail-then-ok" := 2 ]} [])
    as (_ & Hrewrite).
  split.
  - rewrite Hkeep; [reflexivity|]. right. reflexivity.
  - destruct Hrewrite as (E & _); [reflexivity|reflexivity|].
    rewrite E. reflexivity.
Defined.

(** X18: the checks are substring tests, not tests of a path segment or of
    a prefix.  A GET of any path of the form [pre ++ "/404" ++ post], such
    as "/v1/4040" or "/x?next=/404", is answered 404. *)
Theorem substring_anywhere environ inherited (pre post version : string)
    (counts : gmap string Z) (log : list LogCall) :
  wfile (handle environ inherited
           (mkRequest "GET" (pre ++ "/404" ++ post) version) counts log) =
  [EvSendError 404 "Not Found"].
Proof.
  assert (H : str_in "/404" (pre ++ "/404" ++ post) = true)
    by (apply str_in_spec; now exists pre, post).
  rewrite handle_GET by reflexivity.
  rewrite do_GET_404, send_error_run by exact H.
  reflexivity.
Qed.

(** ** Where the fixtures are by default *)

Lemma upto_last_slash_app d name :
  str_in "/" name = false ->
  upto_last_slash (d ++ "/" ++ name) = d ++ "/".
Proof.
  intros Hname. induction d as [|c d IH].
  - change ("" ++ "/" ++ name) with (String "/" name).
    cbn [upto_last_slash]. rewrite Hname. reflexivity.
  - change (String c d ++ "/" ++ name) with (String c (d ++ "/" ++ name)).
    change (String c d ++ "/") with (String c (d ++ "/")).
    cbn [upto_last_slash].
    assert (H : str_in "/" (d ++ "/" ++ name) = true)
      by (apply str_in_spec; now exists d, name).
    now rewrite H, IH.
Qed.

Lemma all_slashes_app_false d :
  d <> "" -> endswith_slash d = false -> all_slashes (d ++ "/") = false.
Proof.
  induction d as [|c d IH]; [congruence|]; intros _ Hend.
  rewrite string_app_cons. cbn [all_slashes].
  destruct d as [|c' d].
  - cbn [endswith_slash] in Hend. now rewrite Hend.
  - rewrite IH; [apply andb_false_r|discriminate|exact Hend].
Qed.

Lemma rstrip_slash_app d :
  endswith_slash d = false -> rstrip_slash (d ++ "/") = d.
Proof.
  induction d as [|c d IH]; intros Hend; [reflexivity|].
  rewrite string_app_cons. cbn [rstrip_slash].
  rewrite <- string_app_cons.
  rewrite all_slashes_app_false by (discriminate || exact Hend).
  destruct d as [|c' d]; [reflexivity|].
  now rewrite IH.
Qed.

Lemma os_path_dirname_app d name :
  d <> "" -> endswith_slash d = false -> str_in "/" name = false ->
  os_path_dirname (d ++ "/" ++ name) = d.
Proof.
  intros Hd Hend Hname. unfold os_path_dirname.
  rewrite upto_last_slash_app by assumption.
  destruct d as [|c d]; [congruence|].
  rewrite string_app_cons, <- string_app_cons.
  rewrite all_slashes_app_false by assumption.
  now apply rstrip_slash_app.
Qed.

Lemma os_path_dirname_plain name :
  str_in "/" name = false -> os_path_dirname name = "".
Proof.
  intros Hname. unfold os_path_dirname.
  assert (H : upto_last_slash name = "").
  { destruct name as [|c name]; [reflexivity|].
    cbn [upto_last_slash]. cbn [str_in] in Hname.
    apply orb_false_elim in Hname as [Hc Hrest]. rewrite Hrest.
    cbn [startswith] in Hc.
    destruct (Ascii.eqb "/" c) eqn:E; [discriminate Hc|].
    rewrite Ascii.eqb_sym, E. reflexivity. }
  now rewrite H.
Qed.

Lemma string_app_assoc (s1 s2 s3 : string) :
  (s1 ++ s2) ++ s3 = s1 ++ (s2 ++ s3).
Proof.
  induction s1 as [|c s1 IH]; [reflexivity|].
  rewrite !string_app_cons. now rewrite IH.
Qed.

Lemma endswith_slash_app d c s :
  endswith_slash (d ++ String c s) = endswith_slash (String c s).
Proof.
  induction d as [|a d IH]; [reflexivity|].
  rewrite string_app_cons. cbn [endswith_slash].
  destruct (d ++ String c s) eqn:E; [|exact IH].
  destruct d; discriminate E.
Qed.

Lemma os_path_join_plain a s :
  a <> "" -> endswith_slash a = false -> os_path_join a s = a ++ "/" ++ s.
Proof.
  intros Ha Hend. unfold os_path_join. destruct a; [congruence|].
  now rewrite Hend.
Qed.

(** X19: where the fixtures go when no directory is given (fewer than two
    arguments after the program name).  For a script started as
    [d/name], with [d] not ending in a slash and no slash in [name], the
    fixture directory is [d/test_fixtures], next to the script, and
    [mock_binary] is looked for at [d/test_fixtures/mock_binary]; for a
    script started by its bare name it is "test_fixtures", relative to the
    working directory.  A third argument is taken as it is. *)
Theorem default_fixtures_dir (argv : list string) (d name : string) :
  (length argv <= 2)%nat ->
  d <> "" -> endswith_slash d = false -> str_in "/" name = false ->
  FIXTURES_DIR argv (d ++ "/" ++ name) = d ++ "/test_fixtures" /\
  os_path_join (FIXTURES_DIR argv (d ++ "/" ++ name)) "mock_binary" =
    d ++ "/test_fixtures/mock_binary" /\
  FIXTURES_DIR argv name = "test_fixtures" /\
  (forall prog port dir rest file,
      FIXTURES_DIR (prog :: port :: dir :: rest) file = dir).
Proof.
  intros Hlen Hd Hend Hname.
  assert (Hdef : forall file,
    FIXTURES_DIR argv file =
    os_path_join (os_path_dirname file) "test_fixtures").
  { intros file. destruct argv as [|a0 [|a1 [|a2 argv]]]; try reflexivity.
    cbn [length] in Hlen. lia. }
  assert (Hdir : FIXTURES_DIR argv (d ++ "/" ++ name) = d ++ "/test_fixtures").
  { rewrite Hdef, os_path_dirname_app by assumption.
    now apply os_path_join_plain. }
  split; [exact Hdir|].
  split.
  { rewrite Hdir, os_path_join_plain.
    - now rewrite string_app_assoc.
    - destruct d; [congruence|discriminate].
    - change "/test_fixtures" with (String "/" "test_fixtures").
      now rewrite endswith_slash_app. }
  split; [|reflexivity].
  rewrite Hdef, os_path_dirname_plain by assumption. reflexivity.
Qed.

Lemma default_fixtures_dir_witness :
  FIXTURES_DIR ["bin/mock_server.py"; "9000"] "bin/mock_server.py" =
    "bin/test_fixtures" /\
  os_path_join
    (FIXTURES_DIR ["bin/mock_server.py"; "9000"] "bin/mock_server.py")
    "mock_binary" = "bin/test_fixtures/mock_binary" /\
  FIXTURES_DIR ["bin/mock_server.py"; "9000"] "mock_server.py" =
    "test_fixtures".
Proof.
  destruct (default_fixtures_dir ["bin/mock_server.py"; "9000"]
              "bin" "mock_server.py") as (H1 & H2 & H3 & _);
    try reflexivity; try discriminate.
  split; [exact H1|]. split; [exact H2|exact H3].
Defined.

(** ** The first match and the retry block *)

(** C4 as stated fails: the first matching check does not always decide
    alone.  For "/fail-then-ok/small-file" the first check that matches is
    "/fail-then-ok", yet the third request is answered by neither of that
    row's behaviours (the 503, or file serving of the rewritten path) but
    by the "/small-file" check further down. *)
Lemma first_match_decides_counterexample :
  let inherited := fixture_server startup_fixtures in
  let P := "/fail-then-ok/small-file" in
  let st := handle ∅ inherited (GET P) {[ P := 2 ]} [] in
  spec_first_match spec_table P = Some RowRetry /\
  wfile st = spec_events (Some RowSmallFile) P /\
  body_of (wfile st) = bytes_lit "too small" /\
  wfile st <> spec_events (Some RowRetry) P /\
  wfile st <> [EvSuper "do_GET" (self_path st)].
Proof.
  intros inherited P st.
  assert (E : wfile st = spec_events (Some RowSmallFile) P).
  { subst st. rewrite handle_retry_pass by reflexivity.
    rewrite after_retry_small_file by reflexivity. reflexivity. }
  rewrite E.
  split; [reflexivity|]. split; [reflexivity|]. split; [reflexivity|].
  split; discriminate.
Qed.
